(** * thonny/flasher.py: the UF2 flasher dialog

    A shallow embedding of the metadata parser, the target matcher and the
    selection controller of [BaseFlasher], followed by the properties of
    the specification that concern them.

    Conventions of the embedding.
    - A Python [str] is a [string]: the sequence of the bytes of its UTF-8
      encoding.  [PyStr.lower], [PyStr.split] and [PyStr.splitlines] are
      what [str.lower()], [str.split()] and [str.splitlines()] do to ASCII
      text.  Where a property depends on what Python does to other text
      (the words of the matcher, the lines of the metadata file), the three
      functions of Python are parameters of which only their behaviour on
      ASCII text is assumed (module [Unicode]).
    - A Python [dict] is an association list in insertion order
      ([PyDict.dict]); assigning to a key that is present replaces the value
      in place, assigning to a new key appends.
    - A Python [set] of words is a list compared by mutual inclusion.
    - [None] is [None]; a raised exception is the [None] of a fallible
      function.
    - The dialog object is the record [Flasher]; a method is a function
      from [Flasher] to [Flasher].
    - The download runs in a thread of its own and the user chooses in the
      pickers: [reachable] lets the download end between two refreshes or
      during one, and lets the user choose between the refreshes. *)

From Stdlib Require Import String Ascii List Bool Arith Lia DecimalString.
From Stdlib Require Import Permutation.
Import ListNotations.

Set Implicit Arguments.

(* ================================================================== *)
(** * Python strings *)
(* ================================================================== *)

Module PyStr.

(** [s.startswith(p)] *)
Fixpoint startswith (s p : string) {struct p} : bool :=
  match p with
  | EmptyString => true
  | String c p' =>
      match s with
      | EmptyString => false
      | String d s' => Ascii.eqb d c && startswith s' p'
      end
  end.

(** [s[n:]] *)
Fixpoint drop (n : nat) (s : string) : string :=
  match n, s with
  | O, _ => s
  | S _, EmptyString => EmptyString
  | S n', String _ s' => drop n' s'
  end.

(** [k in s] *)
Fixpoint contains (s k : string) : bool :=
  if startswith s k then true
  else match s with
       | EmptyString => false
       | String _ s' => contains s' k
       end.

(** The capital letters of ASCII. *)
Definition is_upper (c : ascii) : bool :=
  let n := nat_of_ascii c in (65 <=? n) && (n <=? 90).

Definition lower_char (c : ascii) : ascii :=
  if is_upper c then ascii_of_nat (nat_of_ascii c + 32) else c.

(** [s.lower()] of an ASCII text: the capitals become small letters.
    (What [str.lower()] does beyond ASCII is left to [Unicode].) *)
Fixpoint lower (s : string) : string :=
  match s with
  | EmptyString => EmptyString
  | String c s' => String (lower_char c) (lower s')
  end.

(** [s.replace(old, new)] for a one-character ASCII [old]: no byte of
    ASCII lies inside the UTF-8 encoding of another character, so
    replacing the byte replaces the character. *)
Fixpoint replace (old : ascii) (new : string) (s : string) : string :=
  match s with
  | EmptyString => EmptyString
  | String c s' =>
      if Ascii.eqb c old then (new ++ replace old new s')%string
      else String c (replace old new s')
  end.

(** The characters of ASCII that [str.split()] separates on: TAB, LF, VT,
    FF, CR, the four separators FS, GS, RS, US, and the space. *)
Definition is_space (c : ascii) : bool :=
  let n := nat_of_ascii c in
  ((9 <=? n) && (n <=? 13)) || ((28 <=? n) && (n <=? 32)).

(** [s.split()] of an ASCII text: the maximal runs of characters that are
    not white space.  (The white space beyond ASCII is left to
    [Unicode].) *)
Fixpoint split (s : string) : list string :=
  match s with
  | EmptyString => []
  | String c s' =>
      if is_space c then split s'
      else match s' with
           | EmptyString => [String c EmptyString]
           | String d _ =>
               if is_space d then String c EmptyString :: split s'
               else match split s' with
                    | w :: ws => String c w :: ws
                    | [] => [String c EmptyString]
                    end
           end
  end.

(** The ASCII line boundaries of [str.splitlines()] other than CR LF:
    LF, VT, FF, CR, FS, GS, RS. *)
Definition is_linebreak (c : ascii) : bool :=
  let n := nat_of_ascii c in
  ((10 <=? n) && (n <=? 13)) || ((28 <=? n) && (n <=? 30)).

Fixpoint splitlines_from (cur : string) (s : string) : list string :=
  match s with
  | EmptyString =>
      match cur with EmptyString => [] | _ => [cur] end
  | String c s' =>
      if Ascii.eqb c "013" then
        match s' with
        | String d s'' =>
            if Ascii.eqb d "010" then cur :: splitlines_from EmptyString s''
            else cur :: splitlines_from EmptyString s'
        | EmptyString => cur :: splitlines_from EmptyString s'
        end
      else if is_linebreak c then cur :: splitlines_from EmptyString s'
      else splitlines_from (cur ++ String c EmptyString)%string s'
  end.

(** [s.splitlines()] of an ASCII text.  (The line boundaries beyond ASCII,
    U+0085, U+2028 and U+2029, are left to [Unicode].) *)
Definition splitlines (s : string) : list string :=
  splitlines_from EmptyString s.

Fixpoint lstrip (c : ascii) (s : string) : string :=
  match s with
  | EmptyString => EmptyString
  | String d s' => if Ascii.eqb d c then lstrip c s' else s
  end.

Fixpoint rstrip (c : ascii) (s : string) : string :=
  match s with
  | EmptyString => EmptyString
  | String d s' =>
      match rstrip c s' with
      | EmptyString =>
          if Ascii.eqb d c then EmptyString else String d EmptyString
      | r => String d r
      end
  end.

(** [s.strip(c)] for a one-character argument *)
Definition strip (c : ascii) (s : string) : string :=
  rstrip c (lstrip c s).

(** [str(n)] for a length *)
Definition of_nat (n : nat) : string :=
  NilEmpty.string_of_uint (Nat.to_uint n).

Definition option_eqb {A} (eqb : A -> A -> bool) (x y : option A) : bool :=
  match x, y with
  | None, None => true
  | Some a, Some b => eqb a b
  | _, _ => false
  end.

Fixpoint list_eqb {A} (eqb : A -> A -> bool) (x y : list A) : bool :=
  match x, y with
  | [], [] => true
  | a :: x', b :: y' => eqb a b && list_eqb eqb x' y'
  | _, _ => false
  end.

End PyStr.

(* ================================================================== *)
(** * Python sets of strings *)
(* ================================================================== *)

Module PySet.

Definition mem (w : string) (s : list string) : bool :=
  existsb (String.eqb w) s.

Definition subset (a b : list string) : bool :=
  forallb (fun w => mem w b) a.

(** [set(a) == set(b)] *)
Definition eqb (a b : list string) : bool :=
  subset a b && subset b a.

End PySet.

(* ================================================================== *)
(** * Python dictionaries with string keys *)
(* ================================================================== *)

Module PyDict.
Section Dict.

Variable V : Type.

Definition dict := list (string * V).

(** [d.get(k)] *)
Fixpoint get (k : string) (d : dict) : option V :=
  match d with
  | [] => None
  | (k', v) :: d' => if String.eqb k' k then Some v else get k d'
  end.

(** [d[k] = v] *)
Fixpoint set_item (k : string) (v : V) (d : dict) : dict :=
  match d with
  | [] => [(k, v)]
  | (k', v') :: d' =>
      if String.eqb k' k then (k', v) :: d'
      else (k', v') :: set_item k v d'
  end.

(** [{k: v for (k, v) in items}] *)
Definition of_items (items : list (string * V)) : dict :=
  fold_left (fun d kv => set_item (fst kv) (snd kv) d) items [].

(** [list(d)], [list(d.values())] *)
Definition keys (d : dict) : list string := map fst d.
Definition values (d : dict) : list V := map snd d.

Variable veqb : V -> V -> bool.

(** [v in d.values()] *)
Definition has_value (v : V) (d : dict) : bool :=
  existsb (fun kv => veqb (snd kv) v) d.

(** [d1 == d2]: the same keys bound to equal values, in any order *)
Definition eqb (d1 d2 : dict) : bool :=
  (length d1 =? length d2) &&
  forallb (fun kv => match get (fst kv) d2 with
                     | Some v => veqb (snd kv) v
                     | None => false
                     end) d1.

End Dict.
End PyDict.

(* ================================================================== *)
(** * Data model *)
(* ================================================================== *)

Open Scope string_scope.
Open Scope list_scope.

(** [class Uf2TargetInfo(TargetInfo)]: the inherited [title], then the
    fields of the subclass. *)
Record Uf2TargetInfo := {
  title : string;
  path : string;
  family : option string;
  model : option string;
  board_id : option string
}.

(** The [==] of the dataclass: field by field. *)
Definition target_eqb (a b : Uf2TargetInfo) : bool :=
  String.eqb (title a) (title b) &&
  String.eqb (path a) (path b) &&
  PyStr.option_eqb String.eqb (family a) (family b) &&
  PyStr.option_eqb String.eqb (model a) (model b) &&
  PyStr.option_eqb String.eqb (board_id a) (board_id b).

(** One element of a variant's ["downloads"]. *)
Record Download := { version : string; url : string }.

Definition download_eqb (a b : Download) : bool :=
  String.eqb (version a) (version b) && String.eqb (url a) (url b).

(** One object of the downloaded JSON array, with the keys the dialog
    reads; ["title"] is the optional one. *)
Module Variant.
Record t := {
  vendor : string;
  model : string;
  family : string;
  title : option string;
  info_url : string;
  downloads : list Download
}.

Definition eqb (a b : t) : bool :=
  String.eqb (vendor a) (vendor b) &&
  String.eqb (model a) (model b) &&
  String.eqb (family a) (family b) &&
  PyStr.option_eqb String.eqb (title a) (title b) &&
  String.eqb (info_url a) (info_url b) &&
  PyStr.list_eqb download_eqb (downloads a) (downloads b).
End Variant.

(* ================================================================== *)
(** * The combobox of the three pickers *)
(* ================================================================== *)

Module MappingCombobox.
Section Combo.

Variable V : Type.
Variable veqb : V -> V -> bool.

(** Modelled from the spec: the class [MappingCombobox] of
    [thonny.ui_utils], of which the dialog has three (targets, variants,
    versions).  The specification calls what it holds a selection list
    and a current selection slot.  The list is the [mapping] from the
    descriptions offered to the values they stand for; the slot is the
    description the widget shows, empty when nothing is chosen. *)
Record t := {
  mapping : PyDict.dict V;
  desc : string
}.

(** Modelled from the spec: the picker as [populate_main_frame] creates
    it, with nothing to offer and nothing chosen. *)
Definition create : t := {| mapping := []; desc := "" |}.

(** Modelled from the spec: [set_mapping(mapping)] replaces the selection
    list and leaves the shown description alone.  Wherever else the
    dialog replaces a list it clears or sets the selection itself
    afterwards, and [_handle_new_target] reads the previous selection
    before it replaces the list. *)
Definition set_mapping (m : PyDict.dict V) (c : t) : t :=
  {| mapping := m; desc := desc c |}.

(** Modelled from the spec: [get_selected_value()] is the value that the
    current list binds the shown description to, [None] when it binds
    none. *)
Definition get_selected_value (c : t) : option V :=
  PyDict.get (desc c) (mapping c).

(** Modelled from the spec: [select_none()] empties the shown
    description. *)
Definition select_none (c : t) : t :=
  {| mapping := mapping c; desc := "" |}.

(** Modelled from the spec: [select_value(value)] shows the first
    description bound to a value equal to [value]. *)
Definition select_value (v : V) (c : t) : t :=
  match find (fun kv => veqb (snd kv) v) (mapping c) with
  | Some kv => {| mapping := mapping c; desc := fst kv |}
  | None => c
  end.

End Combo.
End MappingCombobox.

Import MappingCombobox.

(* ================================================================== *)
(** * The world outside the dialog *)
(* ================================================================== *)

(** A mounted volume as the dialog observes it during one scan:
    [vol] is the mount point [list_volumes] returns; [info_isfile] is the
    answer of [os.path.isfile] for [INFO_UF2.TXT] at its root; [info_read]
    is the text [open(...).read()] returns, [None] when opening, reading or
    decoding raises; [win_volume_name] is the answer of
    [get_win_volume_name], [None] when it raises. *)
Record Volume := {
  vol : string;
  info_isfile : bool;
  info_read : option string;
  win_volume_name : option string
}.

(** [sys.platform], and the result of [list_volumes(skip_letters=["A"])]. *)
Record Env := {
  sys_platform : string;
  list_volumes : list Volume
}.

(** What the catalog request ends with: the parsed JSON array, or any of
    the exceptions of the request, the decoding and the parsing. *)
Inductive FetchResult :=
| Fetched (json : list Variant.t)
| FetchFailed.

Inductive LogLevel := INFO | ERROR | EXCEPTION.

(** A call of the logger: level, format string, arguments. *)
Record LogRecord := {
  levelname : LogLevel;
  msg : string;
  args : list string
}.

(* ================================================================== *)
(** * The dialog *)
(* ================================================================== *)

(** The attributes of [BaseFlasher] (and the few of [WorkDialog] it
    touches).  A label is the text it shows. *)
Record Flasher := {
  _state : string;
  _downloaded_variants : list Variant.t;
  _last_handled_target : option Uf2TargetInfo;
  _last_handled_variant : option Variant.t;
  _target_combo : MappingCombobox.t Uf2TargetInfo;
  _variant_combo : MappingCombobox.t Variant.t;
  _version_combo : MappingCombobox.t string;
  _target_info_label : string;
  _target_info_content_label : string;
  _variant_info_content_label : string;
  _variant_info_content_url : option string;
  logged : list LogRecord;
  text : list string;
  action_text : string;
  progress_widgets_gridded : bool
}.

Definition with_downloaded_variants x (s : Flasher) : Flasher :=
  {| _state := _state s; _downloaded_variants := x;
     _last_handled_target := _last_handled_target s;
     _last_handled_variant := _last_handled_variant s;
     _target_combo := _target_combo s; _variant_combo := _variant_combo s;
     _version_combo := _version_combo s;
     _target_info_label := _target_info_label s;
     _target_info_content_label := _target_info_content_label s;
     _variant_info_content_label := _variant_info_content_label s;
     _variant_info_content_url := _variant_info_content_url s;
     logged := logged s; text := text s; action_text := action_text s;
     progress_widgets_gridded := progress_widgets_gridded s |}.

Definition with_last_handled_target x (s : Flasher) : Flasher :=
  {| _state := _state s; _downloaded_variants := _downloaded_variants s;
     _last_handled_target := x;
     _last_handled_variant := _last_handled_variant s;
     _target_combo := _target_combo s; _variant_combo := _variant_combo s;
     _version_combo := _version_combo s;
     _target_info_label := _target_info_label s;
     _target_info_content_label := _target_info_content_label s;
     _variant_info_content_label := _variant_info_content_label s;
     _variant_info_content_url := _variant_info_content_url s;
     logged := logged s; text := text s; action_text := action_text s;
     progress_widgets_gridded := progress_widgets_gridded s |}.

Definition with_last_handled_variant x (s : Flasher) : Flasher :=
  {| _state := _state s; _downloaded_variants := _downloaded_variants s;
     _last_handled_target := _last_handled_target s;
     _last_handled_variant := x;
     _target_combo := _target_combo s; _variant_combo := _variant_combo s;
     _version_combo := _version_combo s;
     _target_info_label := _target_info_label s;
     _target_info_content_label := _target_info_content_label s;
     _variant_info_content_label := _variant_info_content_label s;
     _variant_info_content_url := _variant_info_content_url s;
     logged := logged s; text := text s; action_text := action_text s;
     progress_widgets_gridded := progress_widgets_gridded s |}.

Definition with_target_combo x (s : Flasher) : Flasher :=
  {| _state := _state s; _downloaded_variants := _downloaded_variants s;
     _last_handled_target := _last_handled_target s;
     _last_handled_variant := _last_handled_variant s;
     _target_combo := x; _variant_combo := _variant_combo s;
     _version_combo := _version_combo s;
     _target_info_label := _target_info_label s;
     _target_info_content_label := _target_info_content_label s;
     _variant_info_content_label := _variant_info_content_label s;
     _variant_info_content_url := _variant_info_content_url s;
     logged := logged s; text := text s; action_text := action_text s;
     progress_widgets_gridded := progress_widgets_gridded s |}.

Definition with_variant_combo x (s : Flasher) : Flasher :=
  {| _state := _state s; _downloaded_variants := _downloaded_variants s;
     _last_handled_target := _last_handled_target s;
     _last_handled_variant := _last_handled_variant s;
     _target_combo := _target_combo s; _variant_combo := x;
     _version_combo := _version_combo s;
     _target_info_label := _target_info_label s;
     _target_info_content_label := _target_info_content_label s;
     _variant_info_content_label := _variant_info_content_label s;
     _variant_info_content_url := _variant_info_content_url s;
     logged := logged s; text := text s; action_text := action_text s;
     progress_widgets_gridded := progress_widgets_gridded s |}.

Definition with_version_combo x (s : Flasher) : Flasher :=
  {| _state := _state s; _downloaded_variants := _downloaded_variants s;
     _last_handled_target := _last_handled_target s;
     _last_handled_variant := _last_handled_variant s;
     _target_combo := _target_combo s; _variant_combo := _variant_combo s;
     _version_combo := x;
     _target_info_label := _target_info_label s;
     _target_info_content_label := _target_info_content_label s;
     _variant_info_content_label := _variant_info_content_label s;
     _variant_info_content_url := _variant_info_content_url s;
     logged := logged s; text := text s; action_text := action_text s;
     progress_widgets_gridded := progress_widgets_gridded s |}.

Definition with_target_info (label content : string) (s : Flasher) : Flasher :=
  {| _state := _state s; _downloaded_variants := _downloaded_variants s;
     _last_handled_target := _last_handled_target s;
     _last_handled_variant := _last_handled_variant s;
     _target_combo := _target_combo s; _variant_combo := _variant_combo s;
     _version_combo := _version_combo s;
     _target_info_label := label;
     _target_info_content_label := content;
     _variant_info_content_label := _variant_info_content_label s;
     _variant_info_content_url := _variant_info_content_url s;
     logged := logged s; text := text s; action_text := action_text s;
     progress_widgets_gridded := progress_widgets_gridded s |}.

Definition with_variant_info (content : string) (link : option string)
    (s : Flasher) : Flasher :=
  {| _state := _state s; _downloaded_variants := _downloaded_variants s;
     _last_handled_target := _last_handled_target s;
     _last_handled_variant := _last_handled_variant s;
     _target_combo := _target_combo s; _variant_combo := _variant_combo s;
     _version_combo := _version_combo s;
     _target_info_label := _target_info_label s;
     _target_info_content_label := _target_info_content_label s;
     _variant_info_content_label := content;
     _variant_info_content_url := link;
     logged := logged s; text := text s; action_text := action_text s;
     progress_widgets_gridded := progress_widgets_gridded s |}.

(** [logger.info], [logger.error], [logger.exception] *)
Definition log (r : LogRecord) (s : Flasher) : Flasher :=
  {| _state := _state s; _downloaded_variants := _downloaded_variants s;
     _last_handled_target := _last_handled_target s;
     _last_handled_variant := _last_handled_variant s;
     _target_combo := _target_combo s; _variant_combo := _variant_combo s;
     _version_combo := _version_combo s;
     _target_info_label := _target_info_label s;
     _target_info_content_label := _target_info_content_label s;
     _variant_info_content_label := _variant_info_content_label s;
     _variant_info_content_url := _variant_info_content_url s;
     logged := logged s ++ [r]; text := text s;
     action_text := action_text s;
     progress_widgets_gridded := progress_widgets_gridded s |}.

(** Modelled from the spec: [append_text], [set_action_text] and
    [grid_progress_widgets] of [WorkDialog], as the failed download uses
    them: one more line of visible text, the status ["Error!"], the
    progress widgets put on the grid. *)
Definition report_download_failure (line : string) (s : Flasher) : Flasher :=
  {| _state := _state s; _downloaded_variants := _downloaded_variants s;
     _last_handled_target := _last_handled_target s;
     _last_handled_variant := _last_handled_variant s;
     _target_combo := _target_combo s; _variant_combo := _variant_combo s;
     _version_combo := _version_combo s;
     _target_info_label := _target_info_label s;
     _target_info_content_label := _target_info_content_label s;
     _variant_info_content_label := _variant_info_content_label s;
     _variant_info_content_url := _variant_info_content_url s;
     logged := logged s; text := text s ++ [line];
     action_text := "Error!";
     progress_widgets_gridded := true |}.

(* ================================================================== *)
(** * Metadata parser *)
(* ================================================================== *)

(** [find_uf2_property(lines, prop_name)] *)
Fixpoint find_uf2_property (lines : list string) (prop_name : string)
  : option string :=
  let marker := (prop_name ++ ": ")%string in
  match lines with
  | [] => None
  | line :: rest =>
      if PyStr.startswith line marker
      then Some (PyStr.drop (String.length marker) line)
      else find_uf2_property rest prop_name
  end.

(** [info_content.lower().replace(" ", "").replace("_", "").replace("-", "")] *)
Definition normalized_content (info_content : string) : string :=
  PyStr.replace "-" "" (PyStr.replace "_" "" (PyStr.replace " " ""
    (PyStr.lower info_content))).

Definition family_keywords : list string :=
  ["samd21"; "samd51"; "nrf51"; "nrf52"; "esp32s3"; "esp32s3"].

(** The [for keyword in ...: ... break ... else: family = None] loop. *)
Fixpoint first_keyword (keywords : list string) (content : string)
  : option string :=
  match keywords with
  | [] => None
  | keyword :: rest =>
      if PyStr.contains content keyword then Some keyword
      else first_keyword rest content
  end.

(** The family that [_create_target_info] infers from the file's text. *)
Definition infer_family (info_content : string) : option string :=
  let content := normalized_content info_content in
  if PyStr.contains content "boardid:rpirp2" then Some "rp2"
  else first_keyword family_keywords content.

(** [_describe_target_path(path)], with the record it logs when the volume
    name cannot be queried. *)
Definition _describe_target_path (env : Env) (v : Volume)
  : string * list LogRecord :=
  if String.eqb (sys_platform env) "win32" then
    match win_volume_name v with
    | Some label =>
        let disk := PyStr.strip "\" (vol v) in
        ((label ++ " (" ++ disk ++ ")")%string, [])
    | None =>
        (vol v,
         [{| levelname := ERROR;
             msg := "Could not query volume name for %r";
             args := [vol v] |}])
    end
  else (vol v, []).

(** [_create_target_info(path)]: [None] when the assertion fails or the
    file cannot be read. *)
Definition _create_target_info (env : Env) (v : Volume)
  : option (Uf2TargetInfo * list LogRecord) :=
  if negb (info_isfile v) then None
  else
    match info_read v with
    | None => None
    | Some info_content =>
        let info_lines := PyStr.splitlines info_content in
        let described := _describe_target_path env v in
        Some ({| title := fst described;
                 path := vol v;
                 family := infer_family info_content;
                 model := find_uf2_property info_lines "Model";
                 board_id := find_uf2_property info_lines "Board-ID" |},
              snd described)
    end.

(** The comprehension that opens [find_targets]. *)
Definition candidate_paths (env : Env) : list Volume :=
  filter info_isfile (list_volumes env).

Definition could_not_create : LogRecord :=
  {| levelname := EXCEPTION; msg := "Could not create target info";
     args := [] |}.

(** The loop of [find_targets] over the candidates: the mapping built so
    far and the records logged so far. *)
Fixpoint scan (env : Env) (paths : list Volume)
    (result : PyDict.dict Uf2TargetInfo) (records : list LogRecord)
  : PyDict.dict Uf2TargetInfo * list LogRecord :=
  match paths with
  | [] => (result, records)
  | p :: rest =>
      match _create_target_info env p with
      | Some (target_info, lg) =>
          scan env rest
               (PyDict.set_item (title target_info) target_info result)
               (records ++ lg)
      | None => scan env rest result (records ++ [could_not_create])
      end
  end.

(** [find_targets()]: the detected targets by title, and the dialog with
    what was logged on the way. *)
Definition find_targets (env : Env) (s : Flasher)
  : PyDict.dict Uf2TargetInfo * Flasher :=
  let r := scan env (candidate_paths env) [] [] in
  (fst r, fold_left (fun s r => log r s) (snd r) s).

(* ================================================================== *)
(** * Target matcher *)
(* ================================================================== *)

(** [_extract_normalized_words(text)] *)
Definition _extract_normalized_words (text : string) : list string :=
  PyStr.split (PyStr.lower (PyStr.replace "-" "" (PyStr.replace "_" " " text))).

(** [_variant_is_meant_for_target(variant, target)] *)
Definition _variant_is_meant_for_target (variant : Variant.t)
    (target : Uf2TargetInfo) : bool :=
  match family target with
  | None => false
  | Some target_family =>
      if negb (PyStr.startswith (Variant.family variant) target_family)
      then false
      else
        match model target with
        | None => false
        | Some target_model =>
            PySet.eqb (_extract_normalized_words target_model)
                      (_extract_normalized_words (Variant.model variant))
            || PySet.eqb
                 (_extract_normalized_words
                    (target_model ++ " " ++ Variant.vendor variant)%string)
                 (_extract_normalized_words
                    (Variant.model variant ++ " "
                       ++ Variant.vendor variant)%string)
        end
  end.

(** [_create_variant_description(variant)]; the separator is a space, the
    bullet U+2022 and a space. *)
Definition _create_variant_description (variant : Variant.t) : string :=
  (Variant.vendor variant ++ " • " ++
   match Variant.title variant with
   | Some t => t
   | None => Variant.model variant
   end)%string.

(** [whole_mapping] of [_handle_new_target] *)
Definition whole_mapping (downloaded : list Variant.t)
  : PyDict.dict Variant.t :=
  PyDict.of_items
    (map (fun v => (_create_variant_description v, v)) downloaded).

(** [filtered_mapping] of [_handle_new_target] *)
Definition filtered_mapping (downloaded : list Variant.t)
    (target : Uf2TargetInfo) : PyDict.dict Variant.t :=
  let whole := whole_mapping downloaded in
  match family target with
  | Some target_family =>
      let filtered :=
        PyDict.of_items
          (filter (fun item =>
                     PyStr.startswith (Variant.family (snd item))
                                      target_family) whole) in
      match filtered with
      | [] => whole
      | _ => filtered
      end
  | None => whole
  end.

(** [matches] of [_handle_new_target] *)
Definition matches (filtered : PyDict.dict Variant.t)
    (target : Uf2TargetInfo) : list Variant.t :=
  filter (fun v => _variant_is_meant_for_target v target)
         (PyDict.values filtered).

(* ================================================================== *)
(** * Selection controller *)
(* ================================================================== *)

(** [show_new_targets(targets)] *)
Definition show_new_targets (targets : PyDict.dict Uf2TargetInfo)
    (s : Flasher) : Flasher :=
  let combo := set_mapping targets (_target_combo s) in
  match PyDict.values targets with
  | [only] => with_target_combo (select_value target_eqb only combo) s
  | _ => with_target_combo (select_none combo) s
  end.

(** The truth value of an optional string: neither [None] nor empty. *)
Definition truthy (x : option string) : bool :=
  match x with
  | Some (String _ _) => true
  | _ => false
  end.

(** [_update_target_info()] *)
Definition _update_target_info (s : Flasher) : Flasher :=
  match get_selected_value (_target_combo s) with
  | Some current_target =>
      if truthy (model current_target) then
        if PyStr.option_eqb String.eqb (model current_target)
                            (Some "Raspberry Pi RP2")
        then with_target_info "family" "RP2" s
        else with_target_info "model"
               (match model current_target with Some m => m | None => "" end) s
      else if truthy (board_id current_target) then
        with_target_info "board id"
          (match board_id current_target with Some b => b | None => "" end) s
      else if truthy (family current_target) then
        with_target_info "family"
          (match family current_target with Some f => f | None => "" end) s
      else with_target_info "info" "Unknown board" s
  | None =>
      match mapping (_target_combo s) with
      | [] => with_target_info "" "[no suitable targets detected]" s
      | m => with_target_info ""
               ("[found " ++ PyStr.of_nat (length m)
                  ++ " targets, please select one]")%string s
      end
  end.

Definition downloading_message : string := "[downloading variants info ...]".

(** [_update_variant_info()] *)
Definition _update_variant_info (s : Flasher) : Flasher :=
  let current_variant := get_selected_value (_variant_combo s) in
  match _downloaded_variants s with
  | [] => with_variant_info downloading_message None s
  | _ =>
      match current_variant with
      | Some v =>
          with_variant_info (Variant.info_url v) (Some (Variant.info_url v)) s
      | None =>
          match mapping (_variant_combo s) with
          | [] => with_variant_info "" None s
          | m => with_variant_info
                   ("[select one from " ++ PyStr.of_nat (length m)
                      ++ " variants]")%string None s
          end
      end
  end.

(** [_handle_new_target(target)]; [None] is the [AssertionError] of its
    first line. *)
Definition _handle_new_target (target : Uf2TargetInfo) (s : Flasher)
  : option Flasher :=
  match _downloaded_variants s with
  | [] => None
  | _ =>
      let filtered := filtered_mapping (_downloaded_variants s) target in
      let prev_variant := get_selected_value (_variant_combo s) in
      let combo := set_mapping filtered (_variant_combo s) in
      match matches filtered target with
      | [only] =>
          Some (with_variant_combo (select_value Variant.eqb only combo) s)
      | _ =>
          match prev_variant with
          | Some prev =>
              if PyDict.has_value Variant.eqb prev filtered
              then Some (with_variant_combo
                           (select_value Variant.eqb prev combo) s)
              else Some (with_variant_combo combo s)
          | None => Some (with_variant_combo combo s)
          end
      end
  end.

(** [versions_mapping] of [_handle_new_variant] *)
Definition versions_mapping (variant : Variant.t) : PyDict.dict string :=
  PyDict.of_items (map (fun d => (version d, url d)) (Variant.downloads variant)).

(** [_handle_new_variant(variant)] *)
Definition _handle_new_variant (variant : Variant.t) (s : Flasher) : Flasher :=
  let versions := versions_mapping variant in
  let combo := set_mapping versions (_version_combo s) in
  match PyDict.values versions with
  | first :: _ => with_version_combo (select_value String.eqb first combo) s
  | [] => with_version_combo (select_none combo) s
  end.

(** [update_ui()].  The variants are records, so a selected variant is
    never the empty dictionary and [not current_variant] is the test for
    [None].  The closing call [super().update_ui()] belongs to
    [WorkDialog] and is left out. *)
Definition update_ui (env : Env) (s : Flasher) : option Flasher :=
  if String.eqb (_state s) "idle" then
    let (targets, s) := find_targets env s in
    let s :=
      if negb (PyDict.eqb target_eqb targets (mapping (_target_combo s)))
      then with_last_handled_target None (show_new_targets targets s)
      else s in
    match
      match get_selected_value (_target_combo s) with
      | None =>
          Some (with_variant_combo
                  (select_none (set_mapping [] (_variant_combo s))) s)
      | Some current_target =>
          if negb (PyStr.option_eqb target_eqb (Some current_target)
                                    (_last_handled_target s))
             && negb (Nat.eqb (length (_downloaded_variants s)) 0)
          then
            match _handle_new_target current_target s with
            | Some s =>
                Some (with_last_handled_variant None
                        (with_last_handled_target (Some current_target) s))
            | None => None
            end
          else Some s
      end
    with
    | None => None
    | Some s =>
        let s := _update_target_info s in
        let s :=
          match get_selected_value (_variant_combo s) with
          | None =>
              with_version_combo
                (set_mapping [] (select_none (_version_combo s))) s
          | Some current_variant =>
              if negb (PyStr.option_eqb Variant.eqb (Some current_variant)
                                        (_last_handled_variant s))
              then with_last_handled_variant (Some current_variant)
                     (_handle_new_variant current_variant s)
              else s
          end in
        Some (_update_variant_info s)
    end
  else Some s.

(* ================================================================== *)
(** * Catalog fetcher *)
(* ================================================================== *)

Definition _get_variants_url : string :=
  "https://raw.githubusercontent.com/thonny/thonny/master/data/micropython-variants-uf2.json".

(** [_download_variants()], run once by the thread that [__init__]
    starts, for each way the request can end. *)
Definition _download_variants (r : FetchResult) (s : Flasher) : Flasher :=
  let s := log {| levelname := INFO; msg := "Downloading %r";
                  args := [_get_variants_url] |} s in
  match r with
  | Fetched json =>
      log {| levelname := INFO; msg := "Got %r variants";
             args := [PyStr.of_nat (length json)] |}
          (with_downloaded_variants json s)
  | FetchFailed =>
      let m := ("Could not download variants info from "
                  ++ _get_variants_url)%string in
      report_download_failure
        (m ++ String "010" EmptyString)%string
        (log {| levelname := EXCEPTION; msg := m; args := [] |} s)
  end.

(** The dialog as [__init__] and [populate_main_frame] leave it: nothing
    downloaded, nothing handled, three empty pickers. *)
Definition init : Flasher :=
  {| _state := "idle";
     _downloaded_variants := [];
     _last_handled_target := None;
     _last_handled_variant := None;
     _target_combo := create Uf2TargetInfo;
     _variant_combo := create Variant.t;
     _version_combo := create string;
     _target_info_label := "model";
     _target_info_content_label := "";
     _variant_info_content_label := "";
     _variant_info_content_url := None;
     logged := [];
     text := [];
     action_text := "";
     progress_widgets_gridded := false |}.

(** The three selection lists with their current selections. *)
Definition selections (s : Flasher) :=
  (_target_combo s, _variant_combo s, _version_combo s).

(* ================================================================== *)
(** * Vocabulary of the specification *)
(* ================================================================== *)

(** [k] occurs in [s] as a raw substring. *)
Definition occurs_in (k s : string) : Prop :=
  exists a b, s = (a ++ k ++ b)%string.

(** [p] is a literal prefix of [s]. *)
Definition is_prefix (p s : string) : Prop :=
  exists r, s = (p ++ r)%string.

(** Spaces, underscores and hyphens stripped. *)
Fixpoint strip_separators (s : string) : string :=
  match s with
  | EmptyString => EmptyString
  | String c s' =>
      if Ascii.eqb c " " || Ascii.eqb c "_" || Ascii.eqb c "-"
      then strip_separators s'
      else String c (strip_separators s')
  end.

(** Two word lists taken as sets. *)
Definition same_words (a b : list string) : Prop :=
  forall w, In w a <-> In w b.

(** The title of a variant when it has one, else its model. *)
Definition title_or_model (v : Variant.t) : string :=
  match Variant.title v with
  | Some t => t
  | None => Variant.model v
  end.

(** A variant as an item of the mapping by description. *)
Definition described (v : Variant.t) : string * Variant.t :=
  (_create_variant_description v, v).

(** The keys of a sequence in the order of their first occurrence. *)
Fixpoint first_occurrences (l : list string) : list string :=
  match l with
  | [] => []
  | k :: l' =>
      k :: filter (fun x => negb (String.eqb x k)) (first_occurrences l')
  end.

(** The filtered variant set as the specification words it, over the
    variants of the catalog themselves: all of them for a target without
    family; else those whose family starts with the target's; all of them
    again when there is none such. *)
Definition filter_variants_by_family (catalog : list Variant.t)
    (target : Uf2TargetInfo) : list Variant.t :=
  match family target with
  | None => catalog
  | Some f =>
      match filter (fun v => PyStr.startswith (Variant.family v) f) catalog
      with
      | [] => catalog
      | narrowed => narrowed
      end
  end.

(** Two lists of variants taken as sets. *)
Definition same_variants (a b : list Variant.t) : Prop :=
  forall v, In v a <-> In v b.

(** Whether target info can be created for a volume. *)
Definition creatable (env : Env) (v : Volume) : bool :=
  match _create_target_info env v with
  | Some _ => true
  | None => false
  end.

(** The entries that the volumes of a scan contribute, in scan order. *)
Definition target_items (env : Env) (paths : list Volume)
  : list (string * Uf2TargetInfo) :=
  flat_map (fun v => match _create_target_info env v with
                     | Some (info, _) => [(title info, info)]
                     | None => []
                     end) paths.

(** The records that the volumes of a scan cause, in scan order. *)
Definition scan_records (env : Env) (paths : list Volume) : list LogRecord :=
  flat_map (fun v => match _create_target_info env v with
                     | Some (_, lg) => lg
                     | None => [could_not_create]
                     end) paths.

Definition is_exception (r : LogRecord) : bool :=
  match levelname r with
  | EXCEPTION => true
  | _ => false
  end.

(** ** The refresh step, block by block *)

Definition with_logged x (s : Flasher) : Flasher :=
  {| _state := _state s; _downloaded_variants := _downloaded_variants s;
     _last_handled_target := _last_handled_target s;
     _last_handled_variant := _last_handled_variant s;
     _target_combo := _target_combo s; _variant_combo := _variant_combo s;
     _version_combo := _version_combo s;
     _target_info_label := _target_info_label s;
     _target_info_content_label := _target_info_content_label s;
     _variant_info_content_label := _variant_info_content_label s;
     _variant_info_content_url := _variant_info_content_url s;
     logged := x; text := text s; action_text := action_text s;
     progress_widgets_gridded := progress_widgets_gridded s |}.

(** The targets that a scan detects. *)
Definition detected (env : Env) : PyDict.dict Uf2TargetInfo :=
  fst (scan env (candidate_paths env) [] []).

(** The target picker after [show_new_targets]. *)
Definition new_target_combo (targets : PyDict.dict Uf2TargetInfo)
    (c : MappingCombobox.t Uf2TargetInfo) : MappingCombobox.t Uf2TargetInfo :=
  match PyDict.values targets with
  | [only] => select_value target_eqb only (set_mapping targets c)
  | _ => select_none (set_mapping targets c)
  end.

(** The variant picker after [_handle_new_target]. *)
Definition new_variant_combo (catalog : list Variant.t)
    (target : Uf2TargetInfo) (c : MappingCombobox.t Variant.t)
  : MappingCombobox.t Variant.t :=
  let filtered := filtered_mapping catalog target in
  let combo := set_mapping filtered c in
  match matches filtered target with
  | [only] => select_value Variant.eqb only combo
  | _ =>
      match get_selected_value c with
      | Some prev =>
          if PyDict.has_value Variant.eqb prev filtered
          then select_value Variant.eqb prev combo
          else combo
      | None => combo
      end
  end.

(** The version picker after [_handle_new_variant]. *)
Definition new_version_combo (variant : Variant.t)
    (c : MappingCombobox.t string) : MappingCombobox.t string :=
  let versions := versions_mapping variant in
  match PyDict.values versions with
  | first :: _ => select_value String.eqb first (set_mapping versions c)
  | [] => select_none (set_mapping versions c)
  end.

(** Lines 89 to 92 of [update_ui]: the detected targets. *)
Definition targets_block (env : Env) (s : Flasher) : Flasher :=
  let (targets, s) := find_targets env s in
  if negb (PyDict.eqb target_eqb targets (mapping (_target_combo s)))
  then with_last_handled_target None (show_new_targets targets s)
  else s.

(** Lines 94 to 101: the variants of the current target. *)
Definition variants_block (s : Flasher) : option Flasher :=
  match get_selected_value (_target_combo s) with
  | None =>
      Some (with_variant_combo
              (select_none (set_mapping [] (_variant_combo s))) s)
  | Some current_target =>
      if negb (PyStr.option_eqb target_eqb (Some current_target)
                                (_last_handled_target s))
         && negb (Nat.eqb (length (_downloaded_variants s)) 0)
      then
        match _handle_new_target current_target s with
        | Some s =>
            Some (with_last_handled_variant None
                    (with_last_handled_target (Some current_target) s))
        | None => None
        end
      else Some s
  end.

(** Lines 104 to 110: the versions of the current variant. *)
Definition versions_block (s : Flasher) : Flasher :=
  match get_selected_value (_variant_combo s) with
  | None =>
      with_version_combo (set_mapping [] (select_none (_version_combo s))) s
  | Some current_variant =>
      if negb (PyStr.option_eqb Variant.eqb (Some current_variant)
                                (_last_handled_variant s))
      then with_last_handled_variant (Some current_variant)
             (_handle_new_variant current_variant s)
      else s
  end.

(** The label and the content that [_update_target_info] shows for a
    target picker. *)
Definition target_info_texts (c : MappingCombobox.t Uf2TargetInfo)
  : string * string :=
  match get_selected_value c with
  | Some current_target =>
      if truthy (model current_target) then
        if PyStr.option_eqb String.eqb (model current_target)
                            (Some "Raspberry Pi RP2")
        then ("family", "RP2")
        else ("model",
              match model current_target with Some m => m | None => "" end)
      else if truthy (board_id current_target) then
        ("board id",
         match board_id current_target with Some b => b | None => "" end)
      else if truthy (family current_target) then
        ("family",
         match family current_target with Some f => f | None => "" end)
      else ("info", "Unknown board")
  | None =>
      match mapping c with
      | [] => ("", "[no suitable targets detected]")
      | m => ("", ("[found " ++ PyStr.of_nat (length m)
                     ++ " targets, please select one]")%string)
      end
  end.

(** The text and the link that [_update_variant_info] shows for a catalog
    and a variant picker. *)
Definition variant_info_texts (catalog : list Variant.t)
    (c : MappingCombobox.t Variant.t) : string * option string :=
  match catalog with
  | [] => (downloading_message, None)
  | _ =>
      match get_selected_value c with
      | Some v => (Variant.info_url v, Some (Variant.info_url v))
      | None =>
          match mapping c with
          | [] => ("", None)
          | m => (("[select one from " ++ PyStr.of_nat (length m)
                     ++ " variants]")%string, None)
          end
      end
  end.

(** Successive refreshes, one per observed environment. *)
Fixpoint refreshes (envs : list Env) (s : Flasher) : option Flasher :=
  match envs with
  | [] => Some s
  | env :: rest =>
      match update_ui env s with
      | Some s' => refreshes rest s'
      | None => None
      end
  end.

(** The variant info display shows the downloading message. *)
Definition shows_downloading (s : Flasher) : Prop :=
  _variant_info_content_label s = downloading_message
  /\ _variant_info_content_url s = None.

(** A dialog on which a refresh has nothing left to do. *)
Record settled (env : Env) (s : Flasher) : Prop := {
  settled_targets :
    PyDict.eqb target_eqb (detected env) (mapping (_target_combo s)) = true;
  settled_variants :
    match get_selected_value (_target_combo s) with
    | None => _variant_combo s = create Variant.t
    | Some t =>
        _last_handled_target s = Some t \/ _downloaded_variants s = []
    end;
  settled_target_info : _update_target_info s = s;
  settled_versions :
    match get_selected_value (_variant_combo s) with
    | None => _version_combo s = create string
    | Some v => _last_handled_variant s = Some v
    end;
  settled_variant_info : _update_variant_info s = s
}.

(** ** Vocabulary of the further properties *)

(** The characters of a string. *)
Definition chars (s : string) : list ascii := list_ascii_of_string s.

(** A text without line boundary. *)
Definition no_linebreak (l : string) : Prop :=
  forall c, In c (chars l) -> PyStr.is_linebreak c = false.

(** A string made of the character [c] alone. *)
Definition only_char (c : ascii) (s : string) : Prop :=
  forall x, In x (chars s) -> x = c.

(** Lines written one after the other, each ended by a line feed. *)
Fixpoint unlines (lines : list string) : string :=
  match lines with
  | [] => EmptyString
  | l :: rest => (l ++ String "010" (unlines rest))%string
  end.

(** The families that a target can be given. *)
Definition known_families : list string :=
  ["rp2"; "samd21"; "samd51"; "nrf51"; "nrf52"; "esp32s3"].

(** ** Text beyond ASCII *)

(** The bytes of ASCII, and the texts made of them. *)
Definition ascii_char (c : ascii) : bool := Nat.ltb (nat_of_ascii c) 128.

Definition ascii_text (s : string) : Prop :=
  forall c, In c (chars s) -> ascii_char c = true.

(** The test for an ASCII text. *)
Definition ascii_textb (s : string) : bool := forallb ascii_char (chars s).

(** [f] does to every ASCII text what [g] does to it. *)
Definition on_ascii {A : Type} (f g : string -> A) : Prop :=
  forall s, ascii_text s -> f s = g s.

(** The matcher and the parser over the text operations of Python
    themselves.  [str.lower()] is the Unicode case mapping,
    [str.split()] separates on the white space of Unicode and
    [str.splitlines()] breaks at its line boundaries; the three are taken
    as they are, as functions on the UTF-8 bytes of a text.  What is known
    of them, that on ASCII text they are [PyStr.lower], [PyStr.split] and
    [PyStr.splitlines], is a hypothesis where it is used.  The definitions
    of the same names above are these with the three ASCII functions in
    the place of Python's. *)
Module Unicode.
Section Text.

Variable str_lower : string -> string.
Variable str_split : string -> list string.
Variable str_splitlines : string -> list string.

(** [_extract_normalized_words(text)] *)
Definition _extract_normalized_words (text : string) : list string :=
  str_split (str_lower (PyStr.replace "-" "" (PyStr.replace "_" " " text))).

(** [_variant_is_meant_for_target(variant, target)] *)
Definition _variant_is_meant_for_target (variant : Variant.t)
    (target : Uf2TargetInfo) : bool :=
  match family target with
  | None => false
  | Some target_family =>
      if negb (PyStr.startswith (Variant.family variant) target_family)
      then false
      else
        match model target with
        | None => false
        | Some target_model =>
            PySet.eqb (_extract_normalized_words target_model)
                      (_extract_normalized_words (Variant.model variant))
            || PySet.eqb
                 (_extract_normalized_words
                    (target_model ++ " " ++ Variant.vendor variant)%string)
                 (_extract_normalized_words
                    (Variant.model variant ++ " "
                       ++ Variant.vendor variant)%string)
        end
  end.

(** [info_content.lower().replace(" ", "").replace("_", "").replace("-", "")] *)
Definition normalized_content (info_content : string) : string :=
  PyStr.replace "-" "" (PyStr.replace "_" "" (PyStr.replace " " ""
    (str_lower info_content))).

(** The family that [_create_target_info] infers from the file's text. *)
Definition infer_family (info_content : string) : option string :=
  let content := normalized_content info_content in
  if PyStr.contains content "boardid:rpirp2" then Some "rp2"
  else first_keyword family_keywords content.

(** [_create_target_info(path)] *)
Definition _create_target_info (env : Env) (v : Volume)
  : option (Uf2TargetInfo * list LogRecord) :=
  if negb (info_isfile v) then None
  else
    match info_read v with
    | None => None
    | Some info_content =>
        let info_lines := str_splitlines info_content in
        let described := _describe_target_path env v in
        Some ({| title := fst described;
                 path := vol v;
                 family := infer_family info_content;
                 model := find_uf2_property info_lines "Model";
                 board_id := find_uf2_property info_lines "Board-ID" |},
              snd described)
    end.

End Text.
End Unicode.

(** ** Normalization, in the words of the specification *)

(** Underscores replaced with spaces. *)
Fixpoint underscores_to_spaces (s : string) : string :=
  match s with
  | EmptyString => EmptyString
  | String c s' =>
      String (if Ascii.eqb c "_" then " "%char else c)
             (underscores_to_spaces s')
  end.

(** Hyphens deleted. *)
Fixpoint delete_hyphens (s : string) : string :=
  match s with
  | EmptyString => EmptyString
  | String c s' =>
      if Ascii.eqb c "-" then delete_hyphens s'
      else String c (delete_hyphens s')
  end.

(** [d] is [c] in lower case: the capitals [A] to [Z], codes 65 to 90,
    become the letters 32 codes further; every other character of ASCII
    stays. *)
Definition lowercase_of (c d : ascii) : Prop :=
  (65 <= nat_of_ascii c <= 90 /\ nat_of_ascii d = nat_of_ascii c + 32)
  \/ (~ 65 <= nat_of_ascii c <= 90 /\ d = c).

(** [t] is [s] in lower case, character by character. *)
Definition lowercased (s t : string) : Prop :=
  Forall2 lowercase_of (chars s) (chars t).

(** The white space of ASCII: tab, line feed, vertical tab, form feed,
    carriage return, the four separators, space. *)
Definition white_space : list nat := [9; 10; 11; 12; 13; 28; 29; 30; 31; 32].

Definition all_space (s : string) : Prop :=
  forall c, In c (chars s) -> In (nat_of_ascii c) white_space.

Definition no_space (s : string) : Prop :=
  forall c, In c (chars s) -> ~ In (nat_of_ascii c) white_space.

(** Nothing is left, or white space comes next. *)
Definition word_ends (rest : string) : Prop :=
  match rest with
  | EmptyString => True
  | String c _ => In (nat_of_ascii c) white_space
  end.

(** A text split on white space into its tokens: white space, then a
    run of other characters as long as it can be, then the rest split in
    the same way. *)
Inductive Tokens : string -> list string -> Prop :=
| Tokens_end s : all_space s -> Tokens s []
| Tokens_word sp w rest ws :
    all_space sp -> w <> EmptyString -> no_space w -> word_ends rest ->
    Tokens rest ws ->
    Tokens (sp ++ w ++ rest) (w :: ws).

(** ** The dialog in use *)

(** Modelled from the spec: the user picks one of the descriptions that a
    picker offers; the pickers take no other input. *)
Definition pick {V : Type} (k : string) (c : MappingCombobox.t V)
  : MappingCombobox.t V :=
  {| mapping := mapping c; desc := k |}.

(** A choice of the user in one of the three pickers. *)
Inductive user_choice : Flasher -> Flasher -> Prop :=
| choose_target k s :
    In k (PyDict.keys (mapping (_target_combo s))) ->
    user_choice s (with_target_combo (pick k (_target_combo s)) s)
| choose_variant k s :
    In k (PyDict.keys (mapping (_variant_combo s))) ->
    user_choice s (with_variant_combo (pick k (_variant_combo s)) s)
| choose_version k s :
    In k (PyDict.keys (mapping (_version_combo s))) ->
    user_choice s (with_version_combo (pick k (_version_combo s)) s).

(** The download runs in a thread of its own, so it can store the
    catalog while a refresh is on its way.  A refresh reads the catalog
    in line 98 and again in line 176 (the reads of lines 193 and 195 come
    only after a catalog was seen in line 98).  A store before line 98
    comes after the scan at the latest; a store between the two reads
    changes nothing that the lines in between read, and is placed just
    before the second one. *)
Inductive moment := after_scan | after_variants.

(** [update_ui()] with [_download_variants()] ending at that moment. *)
Definition update_ui_during (env : Env) (r : FetchResult) (m : moment)
    (s : Flasher) : option Flasher :=
  if String.eqb (_state s) "idle" then
    match m with
    | after_scan =>
        match variants_block (_download_variants r (targets_block env s)) with
        | Some s2 =>
            Some (_update_variant_info
                    (versions_block (_update_target_info s2)))
        | None => None
        end
    | after_variants =>
        match variants_block (targets_block env s) with
        | Some s2 =>
            Some (_update_variant_info
                    (_download_variants r
                       (versions_block (_update_target_info s2))))
        | None => None
        end
    end
  else Some (_download_variants r s).

(** The dialog while the download is still under way: created, then
    refreshed and used any number of times. *)
Inductive before_fetch : Flasher -> Prop :=
| before_fetch_init : before_fetch init
| before_fetch_refresh env s s' :
    before_fetch s -> update_ui env s = Some s' -> before_fetch s'
| before_fetch_choice s s' :
    before_fetch s -> user_choice s s' -> before_fetch s'.

(** The states the dialog can be in while it is idle: the download ends
    once, between two refreshes or during one, and the user chooses in
    the pickers between the refreshes. *)
Inductive reachable : Flasher -> Prop :=
| reachable_before s : before_fetch s -> reachable s
| reachable_fetch r s :
    before_fetch s -> reachable (_download_variants r s)
| reachable_during env r m s s' :
    before_fetch s -> update_ui_during env r m s = Some s' -> reachable s'
| reachable_refresh env s s' :
    reachable s -> update_ui env s = Some s' -> reachable s'
| reachable_choice s s' :
    reachable s -> user_choice s s' -> reachable s'.

(** The version picker for a variant: its versions, the first one shown. *)
Definition version_combo_of (v : Variant.t) : MappingCombobox.t string :=
  {| mapping := versions_mapping v;
     desc := match versions_mapping v with
             | [] => ""
             | (k, _) :: _ => k
             end |}.

(** A picker shows one of the descriptions it offers, or offers and shows
    nothing. *)
Definition shows_offered {V : Type} (c : MappingCombobox.t V) : Prop :=
  c = create V \/ In (desc c) (PyDict.keys (mapping c)).

(** What the pickers and the markers have to do with each other. *)
Record consistent (s : Flasher) : Prop := {
  consistent_idle : _state s = "idle";
  consistent_empty :
    _downloaded_variants s = [] ->
    _last_handled_target s = None /\ mapping (_variant_combo s) = [];
  consistent_target :
    forall t, _last_handled_target s = Some t ->
              get_selected_value (_target_combo s) <> None
              /\ mapping (_variant_combo s)
                 = filtered_mapping (_downloaded_variants s) t;
  consistent_list :
    mapping (_variant_combo s) = []
    \/ exists t, mapping (_variant_combo s)
                 = filtered_mapping (_downloaded_variants s) t;
  consistent_shown :
    forall v, _last_handled_variant s = Some v ->
              mapping (_variant_combo s) = []
              \/ In (desc (_variant_combo s))
                    (PyDict.keys (mapping (_variant_combo s)));
  consistent_variant :
    forall v, _last_handled_variant s = Some v ->
              In v (PyDict.values (mapping (_variant_combo s))) ->
              mapping (_version_combo s) = versions_mapping v
              /\ shows_offered (_version_combo s)
}.

(** The variant list is the one of the selected target. *)
Definition variant_list_current (s : Flasher) : Prop :=
  match get_selected_value (_target_combo s) with
  | None => _variant_combo s = create Variant.t
  | Some t =>
      match _downloaded_variants s with
      | [] => mapping (_variant_combo s) = []
      | catalog => mapping (_variant_combo s) = filtered_mapping catalog t
      end
  end.


(* ================================================================== *)
(** * Facts about the string operations *)
(* ================================================================== *)

Module PyStrFacts.
Import PyStr.

Lemma startswith_app (p r : string) : startswith (p ++ r) p = true.
Proof.
  induction p as [|c p IH]; simpl; [reflexivity|].
  now rewrite Ascii.eqb_refl, IH.
Qed.

(** [startswith] is the literal prefix test. *)
Lemma startswith_spec (s p : string) :
  startswith s p = true <-> exists r, s = (p ++ r)%string.
Proof.
  split.
  - revert s; induction p as [|c p IH]; intros s H; simpl in *.
    + now exists s.
    + destruct s as [|d s]; [discriminate|].
      apply andb_true_iff in H as [Hc Hs].
      apply Ascii.eqb_eq in Hc; subst d.
      destruct (IH _ Hs) as [r ->]. now exists r.
  - intros [r ->]. apply startswith_app.
Qed.

Lemma drop_app (p r : string) : drop (String.length p) (p ++ r) = r.
Proof.
  induction p as [|c p IH]; simpl; [now destruct r|exact IH].
Qed.

Lemma startswith_length (s p : string) :
  startswith s p = true -> String.length p <= String.length s.
Proof.
  revert s; induction p as [|c p IH]; intros [|d s] H; simpl in *;
    try lia; try discriminate.
  apply andb_true_iff in H as [_ H]. apply IH in H. lia.
Qed.

Lemma contains_unfold (s k : string) :
  contains s k =
  if startswith s k then true
  else match s with
       | EmptyString => false
       | String _ s' => contains s' k
       end.
Proof. destruct s; reflexivity. Qed.

(** [contains] is the substring test. *)
Lemma contains_spec (s k : string) :
  contains s k = true <-> exists a b, s = (a ++ k ++ b)%string.
Proof.
  split.
  - induction s as [|c s IH]; rewrite contains_unfold.
    + destruct (startswith "" k) eqn:E; [|discriminate].
      intros _. apply startswith_spec in E as [r E].
      now exists EmptyString, r.
    + destruct (startswith (String c s) k) eqn:E.
      * intros _. apply startswith_spec in E as [r E].
        now exists EmptyString, r.
      * intros H. destruct (IH H) as (a & b & ->).
        now exists (String c a), b.
  - intros (a & b & ->).
    induction a as [|c a IH]; rewrite contains_unfold; simpl.
    + now rewrite startswith_app.
    + rewrite IH. now destruct (startswith _ k).
Qed.

Lemma option_eqb_spec {A} (eqb : A -> A -> bool) :
  (forall a b, eqb a b = true <-> a = b) ->
  forall x y, option_eqb eqb x y = true <-> x = y.
Proof.
  intros H [a|] [b|]; simpl; try (split; congruence).
  rewrite H. split; congruence.
Qed.

Lemma list_eqb_spec {A} (eqb : A -> A -> bool) :
  (forall a b, eqb a b = true <-> a = b) ->
  forall x y, list_eqb eqb x y = true <-> x = y.
Proof.
  intros H x; induction x as [|a x IH]; intros [|b y]; simpl;
    try (split; congruence).
  rewrite andb_true_iff, H, IH. split; [intros []|intros [=]]; now subst.
Qed.

End PyStrFacts.

Module PySetFacts.
Import PySet.

Lemma mem_spec w s : mem w s = true <-> In w s.
Proof.
  unfold mem. rewrite existsb_exists. split.
  - intros (x & Hx & E). apply String.eqb_eq in E. now subst.
  - intros H. exists w. split; [exact H|apply String.eqb_refl].
Qed.

Lemma subset_spec a b : subset a b = true <-> incl a b.
Proof.
  unfold subset. rewrite forallb_forall. unfold incl.
  split; intros H x Hx; apply mem_spec; auto.
Qed.

(** Two word lists are equal as sets when they have the same members,
    whatever the order and the repetitions. *)
Lemma eqb_spec a b : eqb a b = true <-> (forall w, In w a <-> In w b).
Proof.
  unfold eqb. rewrite andb_true_iff, !subset_spec. unfold incl.
  split.
  - intros [H1 H2] w. split; auto.
  - intros H. split; intros w; apply H.
Qed.

End PySetFacts.

(* ================================================================== *)
(** * Facts about the dictionaries *)
(* ================================================================== *)

Module PyDictFacts.
Section Facts.
Import PyDict.

Variable V : Type.
Implicit Types (d : dict V) (k : string) (v : V) (l : list (string * V)).

Lemma get_app k d1 d2 :
  get k (d1 ++ d2) =
  match get k d1 with Some v => Some v | None => get k d2 end.
Proof.
  induction d1 as [|[k' v'] d1 IH]; simpl; [reflexivity|].
  now destruct (String.eqb k' k).
Qed.

Lemma get_None_iff k d : get k d = None <-> ~ In k (keys d).
Proof.
  induction d as [|[k' v'] d IH]; simpl; [tauto|].
  destruct (String.eqb_spec k' k) as [->|Hne].
  - split; [discriminate|]. intros H; exfalso; apply H; now left.
  - rewrite IH. tauto.
Qed.

Lemma get_Some_In k v d : get k d = Some v -> In (k, v) d.
Proof.
  induction d as [|[k' v'] d IH]; simpl; [discriminate|].
  destruct (String.eqb_spec k' k) as [->|Hne].
  - intros [= ->]. now left.
  - intros H. right. now apply IH.
Qed.

Lemma In_keys k v d : In (k, v) d -> In k (keys d).
Proof. intros H. apply (in_map fst) in H. exact H. Qed.


Lemma In_get k v d : NoDup (keys d) -> In (k, v) d -> get k d = Some v.
Proof.
  induction d as [|[k' v'] d IH]; simpl; [tauto|].
  intros Hnd [[= -> ->]|Hin].
  - now rewrite String.eqb_refl.
  - inversion Hnd as [|? ? Hk Hd]; subst.
    destruct (String.eqb_spec k' k) as [->|Hne].
    + exfalso. apply Hk. eapply In_keys; eassumption.
    + now apply IH.
Qed.

Lemma get_set_item_same k v d : get k (set_item k v d) = Some v.
Proof.
  induction d as [|[k' v'] d IH]; simpl.
  - now rewrite String.eqb_refl.
  - destruct (String.eqb k' k) eqn:E; simpl; now rewrite E.
Qed.

Lemma get_set_item_other k k' v d :
  k <> k' -> get k' (set_item k v d) = get k' d.
Proof.
  intros Hne. induction d as [|[k0 v0] d IH]; simpl.
  - destruct (String.eqb_spec k k'); [contradiction|reflexivity].
  - destruct (String.eqb_spec k0 k) as [->|H0]; simpl.
    + destruct (String.eqb_spec k k'); [contradiction|reflexivity].
    + now rewrite IH.
Qed.

Lemma set_item_fresh k v d :
  ~ In k (keys d) -> set_item k v d = d ++ [(k, v)].
Proof.
  induction d as [|[k' v'] d IH]; simpl; [reflexivity|].
  intros H. destruct (String.eqb_spec k' k) as [->|Hne].
  - exfalso; apply H; now left.
  - rewrite IH; [reflexivity|]. intros Hin; apply H; now right.
Qed.

Lemma keys_set_item_present k v d :
  In k (keys d) -> keys (set_item k v d) = keys d.
Proof.
  induction d as [|[k' v'] d IH]; simpl; [tauto|].
  intros H. destruct (String.eqb_spec k' k) as [->|Hne]; simpl.
  - reflexivity.
  - f_equal. apply IH. destruct H; [contradiction|assumption].
Qed.

Lemma NoDup_keys_set_item k v d :
  NoDup (keys d) -> NoDup (keys (set_item k v d)).
Proof.
  intros Hnd. destruct (in_dec string_dec k (keys d)) as [Hin|Hout].
  - now rewrite keys_set_item_present.
  - rewrite set_item_fresh by assumption.
    unfold keys. rewrite map_app. simpl.
    apply NoDup_app; [exact Hnd|repeat constructor; simpl; tauto|].
    intros x Hx [<-|[]]. contradiction.
Qed.

Lemma In_set_item kv k v d :
  In kv (set_item k v d) -> In kv d \/ kv = (k, v).
Proof.
  induction d as [|[k' v'] d IH]; simpl.
  - intros [<-|[]]; now right.
  - destruct (String.eqb_spec k' k) as [->|Hne]; simpl.
    + intros [<-|H]; [now right|left; now right].
    + intros [<-|H]; [left; now left|].
      destruct (IH H); [left; now right|now right].
Qed.

Let ins := fun d (kv : string * V) => set_item (fst kv) (snd kv) d.

Lemma NoDup_keys_fold l d :
  NoDup (keys d) -> NoDup (keys (fold_left ins l d)).
Proof.
  revert d; induction l as [|[k v] l IH]; intros d H; simpl; [exact H|].
  apply IH. now apply NoDup_keys_set_item.
Qed.

(** A dictionary built by a comprehension has each key once. *)
Lemma NoDup_keys_of_items l : NoDup (keys (of_items l)).
Proof. unfold of_items. fold ins. apply NoDup_keys_fold. constructor. Qed.

Lemma get_fold l d k :
  get k (fold_left ins l d) =
  match get k (rev l) with Some v => Some v | None => get k d end.
Proof.
  revert d; induction l as [|[k0 v0] l IH]; intros d; simpl;
    [reflexivity|].
  rewrite IH, get_app. destruct (get k (rev l)); [reflexivity|].
  simpl. destruct (String.eqb_spec k0 k) as [->|Hne].
  - apply get_set_item_same.
  - now apply get_set_item_other.
Qed.

(** In a comprehension the last item of a key is the one that stays. *)
Lemma get_of_items l k : get k (of_items l) = get k (rev l).
Proof.
  unfold of_items. fold ins. rewrite get_fold.
  now destruct (get k (rev l)).
Qed.

Lemma In_fold l d kv : In kv (fold_left ins l d) -> In kv d \/ In kv l.
Proof.
  revert d; induction l as [|[k0 v0] l IH]; intros d; simpl; [tauto|].
  intros H. destruct (IH _ H) as [H1|H1]; [|tauto].
  apply In_set_item in H1 as [H1|H1]; simpl in *; [tauto|].
  right; left; now symmetry.
Qed.

Lemma In_of_items l kv : In kv (of_items l) -> In kv l.
Proof. intros H. apply In_fold in H as [[]|H]. exact H. Qed.

Lemma fold_fresh l d :
  NoDup (keys d ++ map fst l) -> fold_left ins l d = d ++ l.
Proof.
  revert d; induction l as [|[k0 v0] l IH]; intros d H; simpl.
  - now rewrite app_nil_r.
  - simpl in H. unfold ins at 2. simpl.
    assert (Hout : ~ In k0 (keys d)).
    { intros Hin. apply NoDup_remove_2 in H. apply H.
      apply in_or_app. now left. }
    rewrite set_item_fresh by assumption.
    rewrite IH.
    + now rewrite <- app_assoc.
    + unfold keys. rewrite map_app. simpl. rewrite <- app_assoc. simpl.
      apply NoDup_remove_1 in H as H1.
      apply NoDup_remove_2 in H as H2.
      fold (keys d).
      clear -H H1 H2 Hout.
      apply NoDup_app_remove_l in H1 as Hl.
      assert (Hd : NoDup (keys d)) by (now apply NoDup_app_remove_r in H1).
      apply NoDup_app; [exact Hd| |].
      * constructor; [|exact Hl]. intros Hin. apply H2.
        apply in_or_app. now right.
      * intros x Hx [<-|Hin]; [contradiction|].
        revert Hx Hin. clear -H1.
        intros Hx Hin.
        induction (keys d) as [|y ys IHy]; [destruct Hx|].
        simpl in H1. inversion H1 as [|? ? Hy Hys]; subst.
        destruct Hx as [->|Hx].
        -- apply Hy. apply in_or_app. now right.
        -- now apply IHy.
Qed.

(** Items with distinct keys give the dictionary with just these items,
    in their order. *)
Lemma of_items_NoDup l : NoDup (map fst l) -> of_items l = l.
Proof. intros H. unfold of_items. fold ins. now rewrite fold_fresh. Qed.

Lemma NoDup_keys_filter (p : string * V -> bool) d :
  NoDup (keys d) -> NoDup (keys (filter p d)).
Proof.
  induction d as [|[k v] d IH]; simpl; [auto|].
  intros H. inversion H as [|? ? Hk Hd]; subst.
  destruct (p (k, v)); simpl; [|now apply IH].
  constructor; [|now apply IH].
  intros Hin. apply Hk. unfold keys in *.
  apply in_map_iff in Hin as ([k' v'] & <- & Hin').
  apply filter_In in Hin' as [Hin' _]. eapply In_keys; eassumption.
Qed.

Variable veqb : V -> V -> bool.
Hypothesis veqb_spec : forall a b, veqb a b = true <-> a = b.


Lemma eqb_refl d : NoDup (keys d) -> eqb veqb d d = true.
Proof.
  intros Hnd. unfold eqb. rewrite Nat.eqb_refl. simpl.
  apply forallb_forall. intros [k v] Hin. simpl.
  rewrite In_get with (v := v) by assumption. now apply veqb_spec.
Qed.

End Facts.
End PyDictFacts.

(* ================================================================== *)
(** * Metadata parser: properties *)
(* ================================================================== *)

Section ParserFacts.
Import PyStr PyStrFacts.

Lemma length_lower s : String.length (lower s) = String.length s.
Proof. induction s; simpl; congruence. Qed.

Lemma lower_app a b : lower (a ++ b) = (lower a ++ lower b)%string.
Proof. induction a; simpl; congruence. Qed.

Lemma append_assoc (a b c : string) :
  ((a ++ b) ++ c = a ++ (b ++ c))%string.
Proof. induction a; simpl; congruence. Qed.

Lemma replace_app old new a b :
  replace old new (a ++ b) = (replace old new a ++ replace old new b)%string.
Proof.
  induction a as [|c a IH]; simpl; [reflexivity|].
  destruct (Ascii.eqb c old); rewrite IH; simpl;
    [now rewrite append_assoc|reflexivity].
Qed.

Lemma append_inj_length (a b x y : string) :
  String.length a = String.length b ->
  (a ++ x = b ++ y)%string -> a = b.
Proof.
  revert b; induction a as [|c a IH]; intros [|d b] Hl H; simpl in *;
    try discriminate; [reflexivity|].
  injection H as -> H. f_equal. apply IH; [lia|exact H].
Qed.

Lemma normalized_content_app a b :
  normalized_content (a ++ b)
  = (normalized_content a ++ normalized_content b)%string.
Proof.
  unfold normalized_content. now rewrite lower_app, !replace_app.
Qed.

(** The three replacements together strip the three separators. *)
Lemma normalized_content_strip content :
  normalized_content content = strip_separators (lower content).
Proof.
  unfold normalized_content.
  induction (lower content) as [|c s IH]; simpl; [reflexivity|].
  destruct (Ascii.eqb_spec c " ") as [->|H1]; simpl; [exact IH|].
  destruct (Ascii.eqb_spec c "_") as [->|H2]; simpl; [exact IH|].
  destruct (Ascii.eqb_spec c "-") as [->|H3]; simpl; [exact IH|].
  now rewrite IH.
Qed.

Lemma first_keyword_first keywords content before k after :
  keywords = before ++ k :: after ->
  contains content k = true ->
  (forall k', In k' before -> contains content k' = false) ->
  first_keyword keywords content = Some k.
Proof.
  intros -> Hk. induction before as [|k0 before IH]; intros Hb; simpl.
  - now rewrite Hk.
  - rewrite (Hb k0) by now left. apply IH. intros k' H. apply Hb. now right.
Qed.

Lemma first_keyword_none keywords content :
  first_keyword keywords content = None <->
  (forall k, In k keywords -> contains content k = false).
Proof.
  induction keywords as [|k0 ks IH]; simpl.
  - split; [intros _ k []|reflexivity].
  - destruct (contains content k0) eqn:E.
    + split; [discriminate|]. intros H. rewrite (H k0) in E by now left.
      discriminate.
    + rewrite IH. split.
      * intros H k [<-|Hk]; auto.
      * intros H k Hk. apply H. now right.
Qed.

Lemma contains_false_iff s k : contains s k = false <-> ~ occurs_in k s.
Proof.
  unfold occurs_in. rewrite <- contains_spec.
  destruct (contains s k); split; congruence.
Qed.

Lemma find_uf2_property_skip line rest P :
  startswith line (P ++ ": ") = false ->
  find_uf2_property (line :: rest) P = find_uf2_property rest P.
Proof. intros H. simpl. now rewrite H. Qed.

Lemma find_uf2_property_hit P value rest :
  find_uf2_property ((P ++ ": " ++ value)%string :: rest) P = Some value.
Proof.
  rewrite <- append_assoc. cbn [find_uf2_property].
  now rewrite startswith_app, drop_app.
Qed.

Lemma not_startswith_bare_name P : startswith (P ++ ":") (P ++ ": ") = false.
Proof. induction P as [|c P IH]; simpl; [reflexivity|]. now rewrite Ascii.eqb_refl. Qed.

Lemma not_startswith_other_case P P' value :
  lower P' = lower P -> P' <> P ->
  startswith (P' ++ ": " ++ value) (P ++ ": ") = false.
Proof.
  intros Hl Hne.
  destruct (startswith (P' ++ ": " ++ value) (P ++ ": ")) eqn:E;
    [|reflexivity].
  apply startswith_spec in E as [r E]. rewrite append_assoc in E.
  exfalso. apply Hne. eapply append_inj_length; [|exact E].
  now rewrite <- (length_lower P'), Hl, length_lower.
Qed.

End ParserFacts.

(** C10. [find_uf2_property] returns the text after the prefix ["P: "] of
    the first line that starts with it, whatever lines follow (a later
    declaration of the same property is ignored); a line that is just
    ["P:"], or that declares the name in another letter case, is passed
    over; the result is [None] exactly when no line starts with the
    prefix. *)
Theorem find_uf2_property_first_line (lines : list string) (P : string) :
  (forall before value after,
      lines = before ++ (P ++ ": " ++ value)%string :: after ->
      (forall l, In l before -> ~ is_prefix (P ++ ": ") l) ->
      find_uf2_property lines P = Some value)
  /\ (forall rest,
         find_uf2_property ((P ++ ":")%string :: rest) P
         = find_uf2_property rest P)
  /\ (forall P' value rest,
         PyStr.lower P' = PyStr.lower P -> P' <> P ->
         find_uf2_property ((P' ++ ": " ++ value)%string :: rest) P
         = find_uf2_property rest P)
  /\ (find_uf2_property lines P = None <->
      forall l, In l lines -> ~ is_prefix (P ++ ": ") l).
Proof.
  repeat split.
  - intros before value after -> Hb.
    induction before as [|l before IH].
    + apply find_uf2_property_hit.
    + rewrite <- app_comm_cons, find_uf2_property_skip.
      * apply IH. intros l' H. apply Hb. now right.
      * destruct (PyStr.startswith l (P ++ ": ")) eqn:E; [|reflexivity].
        apply PyStrFacts.startswith_spec in E. exfalso.
        apply (Hb l); [now left|exact E].
  - intros rest. apply find_uf2_property_skip, not_startswith_bare_name.
  - intros P' value rest Hl Hne.
    now apply find_uf2_property_skip, not_startswith_other_case.
  - induction lines as [|l lines IH]; [intros _ l []|].
    simpl. destruct (PyStr.startswith l (P ++ ": ")) eqn:E; [discriminate|].
    intros H l' [<-|Hin].
    + intros Hp. apply PyStrFacts.startswith_spec in Hp. congruence.
    + now apply IH.
  - induction lines as [|l lines IH]; intros H; [reflexivity|].
    simpl. destruct (PyStr.startswith l (P ++ ": ")) eqn:E.
    + apply PyStrFacts.startswith_spec in E. exfalso.
      apply (H l); [now left|exact E].
    + apply IH. intros l' Hin. apply H. now right.
Qed.

(** The lookup on four lines: the bare name and the lower-case name are
    passed over, the first proper declaration wins over the second. *)
Lemma find_uf2_property_first_line_witness :
  find_uf2_property ["Model:"; "model: x"; "Model: Foo Board"; "Model: Bar"]
                    "Model" = Some "Foo Board"
  /\ find_uf2_property ["model: x"; "Model: Foo Board"] "Model"
     = find_uf2_property ["Model: Foo Board"] "Model".
Proof.
  split.
  - apply (proj1 (find_uf2_property_first_line
                    ["Model:"; "model: x"; "Model: Foo Board"; "Model: Bar"]
                    "Model")
             ["Model:"; "model: x"] "Foo Board" ["Model: Bar"]).
    + reflexivity.
    + intros l [<-|[<-|[]]] [r E]; simpl in E; discriminate.
  - apply (proj1 (proj2 (proj2 (find_uf2_property_first_line [] "Model")))
             "model" "x" ["Model: Foo Board"]).
    + reflexivity.
    + discriminate.
Defined.

(** Every text that contains [Board-ID: RPI-RP2] normalizes to one that
    contains the marker. *)
Lemma rpi_rp2_marker_occurs (a b : string) :
  occurs_in "boardid:rpirp2"
    (strip_separators (PyStr.lower (a ++ "Board-ID: RPI-RP2" ++ b))).
Proof.
  rewrite <- normalized_content_strip, !normalized_content_app.
  now exists (normalized_content a), (normalized_content b).
Qed.

(** C6. Family inference works on the normalized content (lower case,
    without spaces, underscores and hyphens).  When that contains
    ["boardid:rpirp2"] the family is ["rp2"], whatever keywords occur
    besides, as for every text that contains [Board-ID: RPI-RP2];
    otherwise it is the first entry of the fixed list, scanned in order,
    that occurs in it as a raw substring; when none occurs the family is
    absent. *)
Theorem infer_family_by_marker_then_keywords (info_content : string) :
  let content := strip_separators (PyStr.lower info_content) in
  family_keywords
  = ["samd21"; "samd51"; "nrf51"; "nrf52"; "esp32s3"; "esp32s3"]
  /\ (occurs_in "boardid:rpirp2" content ->
      infer_family info_content = Some "rp2")
  /\ (~ occurs_in "boardid:rpirp2" content ->
      forall before keyword after,
        family_keywords = before ++ keyword :: after ->
        occurs_in keyword content ->
        (forall k, In k before -> ~ occurs_in k content) ->
        infer_family info_content = Some keyword)
  /\ (~ occurs_in "boardid:rpirp2" content ->
      (forall k, In k family_keywords -> ~ occurs_in k content) ->
      infer_family info_content = None)
  /\ (forall a b,
         info_content = (a ++ "Board-ID: RPI-RP2" ++ b)%string ->
         infer_family info_content = Some "rp2").
Proof.
  intros content. unfold infer_family.
  rewrite normalized_content_strip. fold content.
  split; [reflexivity|]. split; [|split; [|split]]; cycle 3.
  - intros a b ->. subst content.
    pose proof (rpi_rp2_marker_occurs a b) as H.
    apply PyStrFacts.contains_spec in H. now rewrite H.
  - intros H. apply PyStrFacts.contains_spec in H. now rewrite H.
  - intros Hm before keyword after Hk Ho Hb.
    apply contains_false_iff in Hm. rewrite Hm.
    apply first_keyword_first with (before := before) (after := after).
    + exact Hk.
    + now apply PyStrFacts.contains_spec.
    + intros k Hin. apply contains_false_iff. now apply Hb.
  - intros Hm Hn. apply contains_false_iff in Hm. rewrite Hm.
    apply first_keyword_none. intros k Hin.
    apply contains_false_iff. now apply Hn.
Qed.

(** A file that names both families: the marker of the RP2 boot loader
    decides, the keyword ["samd21"] before it does not.  A file without
    the marker: ["samd51"] comes before ["nrf52"] in the list. *)
Lemma infer_family_by_marker_then_keywords_witness :
  infer_family "Model: SAMD21 look-alike Board-ID: RPI-RP2" = Some "rp2"
  /\ infer_family "nRF52 bootloader for a SAMD51 carrier" = Some "samd51".
Proof.
  split.
  - apply (proj1 (proj2 (infer_family_by_marker_then_keywords
                           "Model: SAMD21 look-alike Board-ID: RPI-RP2"))).
    exists "model:samd21lookalike", "". reflexivity.
  - apply (proj1 (proj2 (proj2 (infer_family_by_marker_then_keywords
                                  "nRF52 bootloader for a SAMD51 carrier")))
             ltac:(apply contains_false_iff; reflexivity)
             ["samd21"] "samd51" ["nrf51"; "nrf52"; "esp32s3"; "esp32s3"]).
    + reflexivity.
    + exists "nrf52bootloaderfora", "carrier". reflexivity.
    + intros k [<-|[]]. apply contains_false_iff. reflexivity.
Defined.

Example infer_family_keyword_order :
  infer_family "nRF52 bootloader for a SAMD51 carrier" = Some "samd51".
Proof. reflexivity. Qed.

Example infer_family_unknown :
  infer_family "Model: Foo Board" = None.
Proof. reflexivity. Qed.

(* ================================================================== *)
(** * Target matcher: properties *)
(* ================================================================== *)

Lemma startswith_false_iff (s p : string) :
  PyStr.startswith s p = false <-> ~ is_prefix p s.
Proof.
  unfold is_prefix. rewrite <- PyStrFacts.startswith_spec.
  destruct (PyStr.startswith s p); split; congruence.
Qed.

(* ------------------------------------------------------------------ *)
(** ** Normalized words *)

Section WordFacts.
Import PyStr.

Lemma split_words s w :
  In w (split s) ->
  w <> EmptyString
  /\ forall c, In c (list_ascii_of_string w) ->
               is_space c = false /\ In c (list_ascii_of_string s).
Proof.
  revert w; induction s as [|c s IH]; intros w; [intros []|].
  cbn [split]. destruct (is_space c) eqn:Ec.
  - intros H. destruct (IH _ H) as [H1 H2]. split; [exact H1|].
    intros c' Hc'. destruct (H2 c' Hc'). split; [assumption|now right].
  - destruct s as [|d s'].
    + intros [<-|[]]. split; [discriminate|].
      intros c' [<-|[]]. split; [assumption|now left].
    + destruct (is_space d) eqn:Ed.
      * intros [<-|H].
        -- split; [discriminate|]. intros c' [<-|[]].
           split; [assumption|now left].
        -- destruct (IH _ H) as [H1 H2]. split; [exact H1|].
           intros c' Hc'. destruct (H2 c' Hc'). split; [assumption|now right].
      * destruct (split (String d s')) as [|w0 ws] eqn:Es.
        -- intros [<-|[]]. split; [discriminate|].
           intros c' [<-|[]]. split; [assumption|now left].
        -- intros [<-|H].
           ++ split; [discriminate|].
              destruct (IH w0 (or_introl eq_refl)) as [_ H2].
              intros c' [<-|Hc']; [split; [assumption|now left]|].
              destruct (H2 c' Hc'). split; [assumption|now right].
           ++ destruct (IH w (or_intror H)) as [H1 H2]. split; [exact H1|].
              intros c' Hc'. destruct (H2 c' Hc').
              split; [assumption|now right].
Qed.

Lemma chars_lower s c :
  In c (list_ascii_of_string (lower s)) ->
  exists c0, In c0 (list_ascii_of_string s) /\ c = lower_char c0.
Proof.
  induction s as [|d s IH]; simpl; [intros []|].
  intros [<-|H]; [exists d; auto|].
  destruct (IH H) as (c0 & H1 & H2). exists c0. auto.
Qed.

Lemma chars_append a b c :
  In c (list_ascii_of_string (a ++ b)) <->
  In c (list_ascii_of_string a) \/ In c (list_ascii_of_string b).
Proof.
  induction a as [|d a IH]; simpl; [tauto|]. rewrite IH. tauto.
Qed.

Lemma chars_replace old new s c :
  In c (list_ascii_of_string (replace old new s)) ->
  (c <> old /\ In c (list_ascii_of_string s))
  \/ In c (list_ascii_of_string new).
Proof.
  induction s as [|d s IH]; simpl; [intros []|].
  destruct (Ascii.eqb_spec d old) as [->|Hne].
  - rewrite chars_append. intros [H|H]; [now right|].
    destruct (IH H) as [[H1 H2]|H1]; [left; split; auto|now right].
  - simpl. intros [<-|H]; [left; split; auto|].
    destruct (IH H) as [[H1 H2]|H1]; [left; split; auto|now right].
Qed.

Lemma lower_char_facts c0 :
  is_upper (lower_char c0) = false
  /\ (lower_char c0 = "-"%char -> c0 = "-"%char)
  /\ (lower_char c0 = "_"%char -> c0 = "_"%char).
Proof.
  destruct c0 as [[] [] [] [] [] [] [] []]; vm_compute;
    (split; [reflexivity|split; intros H; (reflexivity || discriminate H)]).
Qed.

Lemma extract_normalized_words_normal text w :
  In w (_extract_normalized_words text) ->
  w <> EmptyString
  /\ forall c, In c (list_ascii_of_string w) ->
       is_space c = false /\ is_upper c = false
       /\ c <> "_"%char /\ c <> "-"%char.
Proof.
  unfold _extract_normalized_words. intros H.
  apply split_words in H as [H1 H2]. split; [exact H1|].
  intros c Hc. destruct (H2 c Hc) as [Hs Hin]. split; [exact Hs|].
  apply chars_lower in Hin as (c0 & Hin & ->).
  destruct (lower_char_facts c0) as (Hu & Hh & Hl).
  split; [exact Hu|].
  apply chars_replace in Hin as [[Hne Hin]|[]].
  apply chars_replace in Hin as [[Hne' Hin]|[<-|[]]].
  - split; intros E; [apply Hl in E|apply Hh in E]; contradiction.
  - split; discriminate.
Qed.
End WordFacts.

(* ------------------------------------------------------------------ *)
(** ** Normalization against its specification *)

Section NormalizationFacts.
Import PyStr.

Lemma split_nonempty d s : is_space d = false -> split (String d s) <> [].
Proof.
  intros H. cbn [split]. rewrite H.
  destruct s as [|e s]; [discriminate|].
  destruct (is_space e); [discriminate|].
  destruct (split (String e s)); discriminate.
Qed.

Lemma split_cons c s :
  split (String c s) =
  if is_space c then split s
  else match s with
       | EmptyString => [String c EmptyString]
       | String d _ =>
           if is_space d then String c EmptyString :: split s
           else match split s with
                | w :: ws => String c w :: ws
                | [] => [String c EmptyString]
                end
       end.
Proof. reflexivity. Qed.

Lemma split_app_space a b :
  split (a ++ String " " b) = split a ++ split b.
Proof.
  induction a as [|c a IH]; [reflexivity|].
  change (String c a ++ String " " b)%string
    with (String c (a ++ String " " b)).
  rewrite !split_cons. destruct (is_space c) eqn:Ec; [exact IH|].
  destruct a as [|d a].
  - reflexivity.
  - change (String d a ++ String " " b)%string
      with (String d (a ++ String " " b)) in *.
    rewrite IH. destruct (is_space d) eqn:Ed; [reflexivity|].
    destruct (split (String d a)) as [|w ws] eqn:Es;
      [now elim (split_nonempty d a Ed)|reflexivity].
Qed.

Lemma extract_normalized_words_app a b :
  _extract_normalized_words (a ++ " " ++ b)
  = _extract_normalized_words a ++ _extract_normalized_words b.
Proof.
  unfold _extract_normalized_words.
  rewrite !replace_app, !lower_app.
  change (lower (replace "-" "" (replace "_" " " " "))) with " ".
  apply split_app_space.
Qed.

Lemma replace_underscores s : replace "_" " " s = underscores_to_spaces s.
Proof.
  induction s as [|c s IH]; [reflexivity|]. cbn [replace underscores_to_spaces].
  destruct (Ascii.eqb c "_"); cbn [append]; now rewrite IH.
Qed.

Lemma replace_hyphens s : replace "-" "" s = delete_hyphens s.
Proof.
  induction s as [|c s IH]; [reflexivity|]. cbn [replace delete_hyphens].
  destruct (Ascii.eqb c "-"); cbn [append]; now rewrite IH.
Qed.

Lemma is_space_white c :
  is_space c = true <-> In (nat_of_ascii c) white_space.
Proof.
  unfold is_space, white_space. cbv zeta.
  rewrite orb_true_iff, !andb_true_iff, !Nat.leb_le. cbn [In]. lia.
Qed.

Lemma is_space_not_white c :
  is_space c = false <-> ~ In (nat_of_ascii c) white_space.
Proof.
  rewrite <- is_space_white. destruct (is_space c); split; congruence.
Qed.

Lemma lower_char_lowercase_of c : lowercase_of c (lower_char c).
Proof.
  unfold lowercase_of, lower_char, is_upper. cbv zeta.
  destruct ((65 <=? nat_of_ascii c)%nat && (nat_of_ascii c <=? 90)%nat) eqn:E.
  - apply andb_true_iff in E as [E1 E2]. apply Nat.leb_le in E1, E2.
    left. split; [lia|]. apply nat_ascii_embedding. lia.
  - right. split; [|reflexivity]. intros [H1 H2].
    apply Nat.leb_le in H1, H2. rewrite H1, H2 in E. discriminate E.
Qed.

Lemma lowercase_of_unique c d : lowercase_of c d -> d = lower_char c.
Proof.
  intros H. destruct (lower_char_lowercase_of c) as [[H1 H2]|[H1 H2]];
    destruct H as [[H3 H4]|[H3 H4]]; try contradiction.
  - rewrite <- (ascii_nat_embedding d), <- (ascii_nat_embedding (lower_char c)).
    congruence.
  - congruence.
Qed.

Lemma lower_lowercased s : lowercased s (lower s).
Proof.
  unfold lowercased. induction s as [|c s IH]; cbn; constructor;
    [apply lower_char_lowercase_of|exact IH].
Qed.

Lemma lowercased_unique s t : lowercased s t -> t = lower s.
Proof.
  unfold lowercased. revert t; induction s as [|c s IH]; intros [|d t] H;
    cbn in H; inversion H; subst; [reflexivity|].
  cbn. f_equal; [now apply lowercase_of_unique|now apply IH].
Qed.

Lemma all_space_nil : all_space "".
Proof. intros c []. Qed.

Lemma no_space_one c : is_space c = false -> no_space (String c "").
Proof. intros H x [<-|[]]. now apply is_space_not_white. Qed.

Lemma Tokens_space c s ws :
  is_space c = true -> Tokens s ws -> Tokens (String c s) ws.
Proof.
  intros Hc H. apply is_space_white in Hc. destruct H as [s H|sp w rest ws H1 H2 H3 H4 H5].
  - apply Tokens_end. intros x [<-|Hx]; [exact Hc|now apply H].
  - change (String c (sp ++ w ++ rest))%string
      with (String c sp ++ w ++ rest)%string.
    apply Tokens_word; try assumption.
    intros x [<-|Hx]; [exact Hc|now apply H1].
Qed.

Lemma Tokens_first c w rest ws :
  is_space c = false -> no_space w -> word_ends rest -> Tokens rest ws ->
  Tokens (String c (w ++ rest)) (String c w :: ws).
Proof.
  intros Hc Hw Hr H.
  change (String c (w ++ rest))%string with ("" ++ String c w ++ rest)%string.
  apply Tokens_word; try assumption.
  - apply all_space_nil.
  - discriminate.
  - intros x [<-|Hx]; [now apply is_space_not_white|now apply Hw].
Qed.

(** [split] gives the tokens of a text. *)
Lemma Tokens_split s : Tokens s (split s).
Proof.
  induction s as [|c s IH]; [apply Tokens_end, all_space_nil|].
  rewrite split_cons. destruct (is_space c) eqn:Ec;
    [now apply Tokens_space|].
  destruct s as [|d s].
  - apply (@Tokens_first c "" "" [] Ec);
      [intros x []|exact I|apply Tokens_end, all_space_nil].
  - destruct (is_space d) eqn:Ed.
    + apply (@Tokens_first c "" (String d s) _ Ec);
        [intros x []|now apply is_space_white|exact IH].
    + destruct (split (String d s)) as [|w ws] eqn:Es;
        [now elim (split_nonempty d s Ed)|].
      inversion IH as [|sp w' rest ws' H1 H2 H3 H4 H5 E]; subst.
      destruct sp as [|x sp].
      * cbn [append]. now apply Tokens_first.
      * exfalso. cbn [append] in E. injection E as -> _.
        apply is_space_not_white in Ed. apply Ed, H1. now left.
Qed.

Lemma split_all_space s : all_space s -> split s = [].
Proof.
  induction s as [|c s IH]; [reflexivity|]. intros H. rewrite split_cons.
  rewrite (proj2 (is_space_white c)) by (apply H; now left).
  apply IH. intros x Hx. apply H. now right.
Qed.

Lemma split_skip sp s : all_space sp -> split (sp ++ s) = split s.
Proof.
  induction sp as [|c sp IH]; [reflexivity|]. intros H.
  change (String c sp ++ s)%string with (String c (sp ++ s)).
  rewrite split_cons, (proj2 (is_space_white c)) by (apply H; now left).
  apply IH. intros x Hx. apply H. now right.
Qed.

Lemma split_word w rest :
  w <> "" -> no_space w -> word_ends rest ->
  split (w ++ rest) = w :: split rest.
Proof.
  induction w as [|c w IH]; [intros H; now elim H|]. intros _ Hw Hr.
  assert (Hc : is_space c = false)
    by (apply is_space_not_white, Hw; now left).
  destruct w as [|d w].
  - cbn [append]. rewrite split_cons, Hc.
    destruct rest as [|e rest]; [reflexivity|].
    cbn in Hr. apply is_space_white in Hr. now rewrite Hr.
  - assert (Hd : is_space d = false)
      by (apply is_space_not_white, Hw; right; now left).
    change (String c (String d w) ++ rest)%string
      with (String c (String d w ++ rest)).
    rewrite split_cons, Hc.
    rewrite IH; [|discriminate| |exact Hr].
    + cbn [append]. now rewrite Hd.
    + intros x Hx. apply Hw. now right.
Qed.

(** A text has no other tokens than those [split] gives. *)
Lemma Tokens_unique s ws : Tokens s ws -> ws = split s.
Proof.
  induction 1 as [s H|sp w rest ws H1 H2 H3 H4 H5 IH].
  - symmetry. now apply split_all_space.
  - rewrite split_skip, split_word by assumption. now f_equal.
Qed.

Lemma ascii_textb_spec s : ascii_textb s = true -> ascii_text s.
Proof. unfold ascii_textb. rewrite forallb_forall. auto. Qed.

Lemma ascii_text_append a b :
  ascii_text a -> ascii_text b -> ascii_text (a ++ b).
Proof.
  intros Ha Hb c Hc. apply chars_append in Hc as [Hc|Hc]; auto.
Qed.

Lemma ascii_text_replace old new s :
  ascii_text new -> ascii_text s -> ascii_text (replace old new s).
Proof.
  intros Hn Hs c Hc. apply chars_replace in Hc as [[_ Hc]|Hc]; auto.
Qed.

Lemma ascii_char_lower c : ascii_char c = true -> ascii_char (lower_char c) = true.
Proof.
  unfold ascii_char. repeat rewrite Nat.ltb_lt. intros H.
  destruct (lower_char_lowercase_of c) as [[H1 H2]|[_ ->]]; lia.
Qed.

Lemma ascii_text_lower s : ascii_text s -> ascii_text (lower s).
Proof.
  intros Hs c Hc. apply chars_lower in Hc as (c0 & Hc0 & ->).
  apply ascii_char_lower. now apply Hs.
Qed.

Variable str_lower : string -> string.
Variable str_split : string -> list string.
Hypothesis lower_on_ascii : on_ascii str_lower lower.
Hypothesis split_on_ascii : on_ascii str_split split.

(** On ASCII text the words are those of the ASCII functions. *)
Lemma words_on_ascii text :
  ascii_text text ->
  Unicode._extract_normalized_words str_lower str_split text
  = _extract_normalized_words text.
Proof.
  intros H. unfold Unicode._extract_normalized_words, _extract_normalized_words.
  assert (Hr : ascii_text (replace "-" "" (replace "_" " " text))).
  { apply ascii_text_replace; [intros c []|].
    apply ascii_text_replace; [|exact H].
    apply ascii_textb_spec. reflexivity. }
  rewrite lower_on_ascii by exact Hr.
  apply split_on_ascii. now apply ascii_text_lower.
Qed.

Lemma meant_on_ascii variant target :
  (forall m, model target = Some m -> ascii_text m) ->
  ascii_text (Variant.model variant) ->
  ascii_text (Variant.vendor variant) ->
  Unicode._variant_is_meant_for_target str_lower str_split variant target
  = _variant_is_meant_for_target variant target.
Proof.
  intros Hm Hv Hd.
  unfold Unicode._variant_is_meant_for_target, _variant_is_meant_for_target.
  destruct (family target); [|reflexivity].
  destruct (negb _); [reflexivity|].
  destruct (model target) as [m|]; [|reflexivity].
  assert (Hsp : ascii_text " ") by (apply ascii_textb_spec; reflexivity).
  rewrite !words_on_ascii; try reflexivity;
    repeat apply ascii_text_append; auto.
Qed.

End NormalizationFacts.

(** C3. Whatever [str.lower()] and [str.split()] do to other text, on
    ASCII text they lower the case of the capitals and split on white
    space; for such functions, and for every variant and target: the
    exact-match test is false for a target without family, for a variant
    whose family does not start with the target's, and for a target
    without model; otherwise it holds exactly when the normalized words of
    the two models are the same set, or are the same set once the
    variant's vendor is appended to both.  The normalized words of a text
    are what the split leaves of the text in lower case after underscores
    became spaces and hyphens went; for an ASCII text they are the tokens
    between white space of that text, each capital turned into its small
    letter, and nothing else.  A target ["X Board"] so matches the variant
    ["Vendor X Board"] of vendor ["Vendor X"], by the second comparison
    and not by the first. *)
Theorem variant_is_meant_for_target_cases
    (str_lower : string -> string) (str_split : string -> list string) :
  on_ascii str_lower PyStr.lower ->
  on_ascii str_split PyStr.split ->
  forall (variant : Variant.t) (target : Uf2TargetInfo),
  let words := Unicode._extract_normalized_words str_lower str_split in
  let meant :=
    Unicode._variant_is_meant_for_target str_lower str_split variant target in
  (family target = None -> meant = false)
  /\ (forall f, family target = Some f ->
                ~ is_prefix f (Variant.family variant) -> meant = false)
  /\ (model target = None -> meant = false)
  /\ (forall f m,
         family target = Some f ->
         is_prefix f (Variant.family variant) ->
         model target = Some m ->
         (meant = true <->
          same_words (words m) (words (Variant.model variant))
          \/ same_words
               (words (m ++ " " ++ Variant.vendor variant)%string)
               (words (Variant.model variant ++ " "
                         ++ Variant.vendor variant)%string)))
  /\ (forall text,
         words text
         = str_split (str_lower (delete_hyphens (underscores_to_spaces text))))
  /\ (forall text, ascii_text text ->
        forall ws,
          ws = words text <->
          exists lowered,
            lowercased (delete_hyphens (underscores_to_spaces text)) lowered
            /\ Tokens lowered ws)
  /\ (forall f,
         Variant.model variant = "Vendor X Board" ->
         Variant.vendor variant = "Vendor X" ->
         model target = Some "X Board" ->
         family target = Some f ->
         is_prefix f (Variant.family variant) ->
         meant = true
         /\ ~ same_words (words "X Board") (words "Vendor X Board")
         /\ same_words (words "X Board Vendor X")
                       (words "Vendor X Board Vendor X")).
Proof.
  intros Hl Hs variant target words meant. subst words meant.
  unfold Unicode._variant_is_meant_for_target.
  split; [|split; [|split; [|split; [|split; [|split]]]]].
  - now intros ->.
  - intros f -> Hp. apply startswith_false_iff in Hp. now rewrite Hp.
  - intros ->. destruct (family target); [|reflexivity].
    now destruct (PyStr.startswith _ _).
  - intros f m -> Hp ->. apply PyStrFacts.startswith_spec in Hp.
    rewrite Hp. cbn [negb]. unfold same_words.
    rewrite orb_true_iff, !PySetFacts.eqb_spec. reflexivity.
  - intros text. unfold Unicode._extract_normalized_words.
    now rewrite replace_underscores, replace_hyphens.
  - intros text Ha ws.
    rewrite (words_on_ascii Hl Hs Ha). unfold _extract_normalized_words.
    rewrite replace_underscores, replace_hyphens. split.
    + intros ->. eexists. split; [apply lower_lowercased|apply Tokens_split].
    + intros (lowered & H1 & H2). apply lowercased_unique in H1. subst lowered.
      now apply Tokens_unique.
  - intros f Hm Hv -> -> Hp. apply PyStrFacts.startswith_spec in Hp.
    rewrite Hp, Hm, Hv. cbn [negb].
    rewrite !(words_on_ascii Hl Hs)
      by (apply ascii_textb_spec; reflexivity).
    split; [reflexivity|]. unfold same_words. split.
    + intros H. apply PySetFacts.eqb_spec in H. discriminate H.
    + apply PySetFacts.eqb_spec. reflexivity.
Qed.

(** A target that writes its model with an underscore, a hyphen and other
    capitals than the catalog. *)
Lemma variant_is_meant_for_target_cases_witness :
  Unicode._variant_is_meant_for_target PyStr.lower PyStr.split
    {| Variant.vendor := "Adafruit"; Variant.model := "Feather M0 Express";
       Variant.family := "samd21"; Variant.title := None;
       Variant.info_url := "https://example.org/feather-m0";
       Variant.downloads := [] |}
    {| title := "/media/FEATHERBOOT"; path := "/media/FEATHERBOOT";
       family := Some "samd"; model := Some "FEATHER_m0 Ex-press";
       board_id := None |} = true.
Proof.
  destruct (variant_is_meant_for_target_cases (str_lower := PyStr.lower)
              (str_split := PyStr.split)
              (fun _ _ => eq_refl) (fun _ _ => eq_refl)
              {| Variant.vendor := "Adafruit";
                 Variant.model := "Feather M0 Express";
                 Variant.family := "samd21"; Variant.title := None;
                 Variant.info_url := "https://example.org/feather-m0";
                 Variant.downloads := [] |}
              {| title := "/media/FEATHERBOOT"; path := "/media/FEATHERBOOT";
                 family := Some "samd"; model := Some "FEATHER_m0 Ex-press";
                 board_id := None |}) as (_ & _ & _ & H & _).
  refine (proj2 (H "samd" "FEATHER_m0 Ex-press" eq_refl
                   (ex_intro _ "21"%string eq_refl) eq_refl) _).
  left. intros w. vm_compute. tauto.
Defined.

Example extract_normalized_words_example :
  _extract_normalized_words "Feather_M0  Ex-press" = ["feather"; "m0"; "express"].
Proof. reflexivity. Qed.

(* ================================================================== *)
(** * Equality tests of the records *)
(* ================================================================== *)

Lemma download_eqb_spec a b : download_eqb a b = true <-> a = b.
Proof.
  unfold download_eqb. rewrite andb_true_iff, !String.eqb_eq.
  destruct a, b; simpl. split; [intros []|intros [=]]; now subst.
Qed.

Lemma variant_eqb_spec a b : Variant.eqb a b = true <-> a = b.
Proof.
  unfold Variant.eqb.
  rewrite !andb_true_iff, !String.eqb_eq,
    (PyStrFacts.option_eqb_spec String.eqb String.eqb_eq),
    (PyStrFacts.list_eqb_spec download_eqb download_eqb_spec).
  destruct a, b; simpl.
  split; [intros [[[[[]]]]]|intros [=]]; now subst.
Qed.

Lemma target_eqb_spec a b : target_eqb a b = true <-> a = b.
Proof.
  unfold target_eqb.
  rewrite !andb_true_iff, !String.eqb_eq,
    !(PyStrFacts.option_eqb_spec String.eqb String.eqb_eq).
  destruct a, b; simpl.
  split; [intros [[[[]]]]|intros [=]]; now subst.
Qed.

Lemma variant_eqb_refl a : Variant.eqb a a = true.
Proof. now apply variant_eqb_spec. Qed.

Lemma target_eqb_refl a : target_eqb a a = true.
Proof. now apply target_eqb_spec. Qed.

(* ================================================================== *)
(** * The mapping of variants by description *)
(* ================================================================== *)

Section WholeMapping.
Import PyDict PyDictFacts.

Lemma NoDup_keys_whole_mapping catalog :
  NoDup (keys (whole_mapping catalog)).
Proof. apply NoDup_keys_of_items. Qed.

(** Every entry binds a variant of the catalog to its own description. *)
Lemma whole_mapping_entry catalog k v :
  In (k, v) (whole_mapping catalog) ->
  k = _create_variant_description v /\ In v catalog.
Proof.
  intros H. apply In_of_items in H.
  apply in_map_iff in H as (u & [= <- <-] & Hu). now split.
Qed.

(** The last variant of a description is the one bound to it. *)
Lemma get_whole_mapping_last catalog before v after :
  catalog = before ++ v :: after ->
  (forall u, In u after ->
             _create_variant_description u <> _create_variant_description v) ->
  get (_create_variant_description v) (whole_mapping catalog) = Some v.
Proof.
  intros -> Hafter. unfold whole_mapping.
  rewrite get_of_items, map_app, rev_app_distr. simpl.
  rewrite <- app_assoc, get_app.
  replace (get _ (rev (map _ after))) with (@None Variant.t).
  - simpl. now rewrite String.eqb_refl.
  - symmetry. apply get_None_iff. unfold keys.
    rewrite <- map_rev, map_map. simpl. intros Hin.
    apply in_map_iff in Hin as (u & Hu & Hin).
    apply in_rev in Hin. now apply (Hafter u).
Qed.

Lemma whole_mapping_distinct catalog :
  NoDup (map _create_variant_description catalog) ->
  whole_mapping catalog = map described catalog.
Proof.
  intros H. unfold whole_mapping. apply of_items_NoDup.
  now rewrite map_map.
Qed.

Lemma of_items_nonempty (V : Type) (l : list (string * V)) :
  l <> [] -> of_items l <> [].
Proof.
  intros Hl E. destruct l as [|[k v] l]; [now apply Hl|].
  assert (H : get k (of_items ((k, v) :: l)) <> None).
  { rewrite get_of_items. intros Hn. apply get_None_iff in Hn.
    apply Hn. unfold keys. simpl. rewrite map_app. apply in_or_app.
    right. now left. }
  rewrite E in H. now apply H.
Qed.

End WholeMapping.

Section FilteredMapping.
Import PyDict PyDictFacts.

Lemma create_variant_description_eq v :
  _create_variant_description v
  = (Variant.vendor v ++ " • " ++ title_or_model v)%string.
Proof. reflexivity. Qed.

(** The comprehension over the items of the whole mapping is the
    plain filter: the keys are already distinct. *)
Lemma filtered_mapping_cases catalog target :
  filtered_mapping catalog target =
  match family target with
  | None => whole_mapping catalog
  | Some f =>
      match filter (fun item => PyStr.startswith
                                  (Variant.family (snd item)) f)
                   (whole_mapping catalog) with
      | [] => whole_mapping catalog
      | narrowed => narrowed
      end
  end.
Proof.
  unfold filtered_mapping. destruct (family target) as [f|]; [|reflexivity].
  cbv zeta. rewrite of_items_NoDup; [now destruct (filter _ _)|].
  apply NoDup_keys_filter, NoDup_keys_whole_mapping.
Qed.

Lemma filtered_sub_whole catalog target kv :
  In kv (filtered_mapping catalog target) -> In kv (whole_mapping catalog).
Proof.
  rewrite filtered_mapping_cases. destruct (family target) as [f|]; [|auto].
  destruct (filter _ _) eqn:E; [auto|].
  rewrite <- E. intros H. now apply filter_In in H.
Qed.

Lemma NoDup_keys_filtered_mapping catalog target :
  NoDup (keys (filtered_mapping catalog target)).
Proof.
  rewrite filtered_mapping_cases.
  destruct (family target) as [f|]; [|apply NoDup_keys_whole_mapping].
  destruct (filter _ _) eqn:E; [apply NoDup_keys_whole_mapping|].
  rewrite <- E.
  apply NoDup_keys_filter, NoDup_keys_whole_mapping.
Qed.

Lemma whole_mapping_nonempty catalog :
  catalog <> [] -> whole_mapping catalog <> [].
Proof.
  intros H. apply of_items_nonempty. now destruct catalog.
Qed.

Lemma filtered_mapping_nonempty catalog target :
  catalog <> [] -> filtered_mapping catalog target <> [].
Proof.
  intros H. rewrite filtered_mapping_cases.
  destruct (family target) as [f|]; [|now apply whole_mapping_nonempty].
  destruct (filter _ _) eqn:E; [now apply whole_mapping_nonempty|].
  discriminate.
Qed.

End FilteredMapping.

(** C9. A variant is keyed by its vendor, the bullet and its title or, for
    want of a title, its model.  When two variants of the catalog agree on
    vendor and on title-or-model, and none after the second one has their
    description, the mapping has one entry under that description, bound
    to the second; the first is then in no list shown for a target. *)
Theorem later_variant_takes_description (catalog : list Variant.t) :
  (forall v, _create_variant_description v
             = (Variant.vendor v ++ " • " ++ title_or_model v)%string)
  /\ (forall before a between b after,
         catalog = before ++ a :: between ++ b :: after ->
         Variant.vendor a = Variant.vendor b ->
         title_or_model a = title_or_model b ->
         (forall u, In u after ->
                    _create_variant_description u
                    <> _create_variant_description b) ->
         let d := _create_variant_description b in
         PyDict.get d (whole_mapping catalog) = Some b
         /\ count_occ string_dec (PyDict.keys (whole_mapping catalog)) d = 1
         /\ (forall target v,
               In (d, v) (filtered_mapping catalog target) -> v = b)
         /\ (a <> b ->
             forall target,
               ~ In a (PyDict.values (filtered_mapping catalog target)))).
Proof.
  split; [apply create_variant_description_eq|].
  intros before a between b after Hcat Hv Ht Hafter d.
  assert (Hd : _create_variant_description a = d).
  { subst d. rewrite !create_variant_description_eq. now rewrite Hv, Ht. }
  assert (Hget : PyDict.get d (whole_mapping catalog) = Some b).
  { apply get_whole_mapping_last with (before := before ++ a :: between)
                                       (after := after).
    - rewrite Hcat, <- app_assoc. reflexivity.
    - exact Hafter. }
  assert (Huniq : forall v, In (d, v) (whole_mapping catalog) -> v = b).
  { intros v Hin.
    apply PyDictFacts.In_get in Hin; [congruence|].
    apply NoDup_keys_whole_mapping. }
  split; [exact Hget|]. split; [|split].
  - apply NoDup_count_occ'; [apply NoDup_keys_whole_mapping|].
    apply PyDictFacts.get_Some_In in Hget.
    eapply PyDictFacts.In_keys; eassumption.
  - intros target v Hin. apply Huniq. eapply filtered_sub_whole; eassumption.
  - intros Hne target Hin. unfold PyDict.values in Hin.
    apply in_map_iff in Hin as ([k v] & Hk & Hin). simpl in Hk. subst v.
    apply filtered_sub_whole in Hin.
    destruct (whole_mapping_entry _ _ _ Hin) as [-> _].
    rewrite Hd in Hin. apply Hne. now apply Huniq.
Qed.

(** Two builds of one board under one title: only the second is offered. *)
Lemma later_variant_takes_description_witness :
  let a := {| Variant.vendor := "Raspberry Pi"; Variant.model := "Pico";
              Variant.family := "rp2"; Variant.title := Some "Pico / Pico H";
              Variant.info_url := "https://example.org/pico";
              Variant.downloads := [] |} in
  let b := {| Variant.vendor := "Raspberry Pi"; Variant.model := "Pico H";
              Variant.family := "rp2"; Variant.title := Some "Pico / Pico H";
              Variant.info_url := "https://example.org/pico-h";
              Variant.downloads := [] |} in
  PyDict.get "Raspberry Pi • Pico / Pico H" (whole_mapping [a; b]) = Some b.
Proof.
  intros a b.
  refine (proj1 (proj2 (later_variant_takes_description [a; b])
                   [] a [] b [] _ _ _ _)); try reflexivity.
  intros u [].
Defined.

Lemma values_map_described (l : list Variant.t) :
  PyDict.values (map described l) = l.
Proof.
  unfold PyDict.values. rewrite map_map. simpl. apply map_id.
Qed.

Lemma filter_map_described (p : Variant.t -> bool) (l : list Variant.t) :
  filter (fun item => p (snd item)) (map described l)
  = map described (filter p l).
Proof.
  induction l as [|v l IH]; simpl; [reflexivity|].
  destruct (p v); simpl; now rewrite IH.
Qed.

(** With pairwise distinct descriptions the filtered mapping holds the
    variants that the family filter leaves of the catalog, in order. *)
Lemma filtered_mapping_distinct catalog target :
  NoDup (map _create_variant_description catalog) ->
  PyDict.values (filtered_mapping catalog target)
  = filter_variants_by_family catalog target.
Proof.
  intros Hnd. rewrite filtered_mapping_cases. unfold filter_variants_by_family.
  rewrite whole_mapping_distinct by exact Hnd.
  destruct (family target) as [f|]; [|apply values_map_described].
  rewrite (filter_map_described
             (fun v => PyStr.startswith (Variant.family v) f)).
  destruct (filter _ catalog) as [|v l]; simpl map at 1; cbv iota.
  - apply values_map_described.
  - apply (values_map_described (v :: l)).
Qed.

(** C2, as the claim has it, fails.  Two catalog entries share one
    description; the first is of family ["esp32s3"], the second of family
    ["esp32"].  For a target of family ["esp32s3"] the claim asks for the
    set with the first entry alone; the dialog offers the second alone. *)
Lemma filtered_mapping_misses_shadowed_variant :
  let a := {| Variant.vendor := "Espressif"; Variant.model := "ESP32-S3";
              Variant.family := "esp32s3";
              Variant.title := Some "Generic module";
              Variant.info_url := "https://example.org/esp32s3";
              Variant.downloads := [] |} in
  let b := {| Variant.vendor := "Espressif"; Variant.model := "ESP32";
              Variant.family := "esp32";
              Variant.title := Some "Generic module";
              Variant.info_url := "https://example.org/esp32";
              Variant.downloads := [] |} in
  let target := {| title := "/media/S3BOOT"; path := "/media/S3BOOT";
                   family := Some "esp32s3"; model := None;
                   board_id := None |} in
  [a; b] <> []
  /\ filter_variants_by_family [a; b] target = [a]
  /\ PyDict.values (filtered_mapping [a; b] target) = [b]
  /\ ~ same_variants (PyDict.values (filtered_mapping [a; b] target))
                     (filter_variants_by_family [a; b] target).
Proof.
  intros a b target.
  split; [discriminate|]. split; [reflexivity|]. split; [reflexivity|].
  intros H. destruct (proj1 (H b)) as [E|[]]; [now left|].
  discriminate E.
Qed.

(** C2, amended.  The filtered set is taken from the mapping of the
    catalog by description, not from the catalog itself.  For a target
    without family it is that whole mapping; otherwise it holds exactly
    the entries of the mapping whose variant's family starts with the
    target's family, and the whole mapping when there is no such entry.
    It is never empty for a catalog that is not.  When the descriptions in
    the catalog are pairwise distinct, it holds just the variants the
    claim names, in catalog order. *)
Theorem filtered_mapping_by_family
    (catalog : list Variant.t) (target : Uf2TargetInfo) :
  catalog <> [] ->
  let whole := whole_mapping catalog in
  let filtered := filtered_mapping catalog target in
  (family target = None -> filtered = whole)
  /\ (forall f,
         family target = Some f ->
         let narrowed :=
           filter (fun item => PyStr.startswith (Variant.family (snd item)) f)
                  whole in
         (forall item, In item narrowed <->
                       In item whole /\ is_prefix f (Variant.family (snd item)))
         /\ (narrowed <> [] -> filtered = narrowed)
         /\ (narrowed = [] -> filtered = whole))
  /\ filtered <> []
  /\ (NoDup (map _create_variant_description catalog) ->
      PyDict.values filtered = filter_variants_by_family catalog target).
Proof.
  intros Hne whole filtered. subst whole filtered.
  split; [|split; [|split]].
  - intros H. now rewrite filtered_mapping_cases, H.
  - intros f H narrowed. split; [|split].
    + intros item. subst narrowed. rewrite filter_In.
      now rewrite PyStrFacts.startswith_spec.
    + intros Hn. rewrite filtered_mapping_cases, H. fold narrowed.
      now destruct narrowed.
    + intros Hn. rewrite filtered_mapping_cases, H. fold narrowed.
      now rewrite Hn.
  - now apply filtered_mapping_nonempty.
  - apply filtered_mapping_distinct.
Qed.

(** A catalog of two boards and an RP2 target: one entry is left. *)
Lemma filtered_mapping_by_family_witness :
  let a := {| Variant.vendor := "Raspberry Pi"; Variant.model := "Pico";
              Variant.family := "rp2"; Variant.title := None;
              Variant.info_url := "https://example.org/pico";
              Variant.downloads := [] |} in
  let b := {| Variant.vendor := "Adafruit"; Variant.model := "Feather M0";
              Variant.family := "samd21"; Variant.title := None;
              Variant.info_url := "https://example.org/feather";
              Variant.downloads := [] |} in
  let target := {| title := "/media/RPI-RP2"; path := "/media/RPI-RP2";
                   family := Some "rp2"; model := None; board_id := None |} in
  PyDict.values (filtered_mapping [a; b] target) = [a].
Proof.
  intros a b target.
  refine (proj2 (proj2 (proj2
            (filtered_mapping_by_family (catalog := [a; b]) target _))) _).
  - discriminate.
  - repeat constructor; simpl; intuition discriminate.
Defined.

(* ================================================================== *)
(** * Order of the keys of a comprehension *)
(* ================================================================== *)

Section KeyOrder.
Import PyDict PyDictFacts.

Variable V : Type.

Lemma filter_filter (A : Type) (p q : A -> bool) (l : list A) :
  filter p (filter q l) = filter (fun x => q x && p x) l.
Proof.
  induction l as [|x l IH]; simpl; [reflexivity|].
  destruct (q x); simpl; [destruct (p x)|]; now rewrite IH.
Qed.

Lemma filter_all (A : Type) (p : A -> bool) (l : list A) :
  (forall x, p x = true) -> filter p l = l.
Proof.
  intros H. induction l as [|x l IH]; simpl; [reflexivity|].
  now rewrite H, IH.
Qed.

Lemma mem_snoc x a k :
  PySet.mem x (a ++ [k]) = PySet.mem x a || String.eqb x k.
Proof.
  unfold PySet.mem. rewrite existsb_app. simpl. now rewrite orb_false_r.
Qed.

Lemma keys_fold_first_occurrences (l : list (string * V)) (d : dict V) :
  keys (fold_left (fun d kv => set_item (fst kv) (snd kv) d) l d)
  = keys d ++ filter (fun x => negb (PySet.mem x (keys d)))
                     (first_occurrences (map fst l)).
Proof.
  revert d; induction l as [|[k v] l IH]; intros d; simpl.
  - now rewrite app_nil_r.
  - rewrite IH. destruct (in_dec string_dec k (keys d)) as [Hin|Hout].
    + rewrite keys_set_item_present by assumption.
      rewrite (proj2 (PySetFacts.mem_spec k (keys d)) Hin). simpl.
      f_equal. rewrite filter_filter. apply filter_ext. intros x.
      destruct (String.eqb_spec x k) as [->|Hne]; simpl; [|reflexivity].
      now rewrite (proj2 (PySetFacts.mem_spec k (keys d)) Hin).
    + rewrite set_item_fresh by assumption.
      assert (Hm : PySet.mem k (keys d) = false).
      { destruct (PySet.mem k (keys d)) eqn:E; [|reflexivity].
        apply PySetFacts.mem_spec in E. contradiction. }
      rewrite Hm. simpl. unfold keys at 1 2. rewrite map_app. simpl.
      fold (keys d). rewrite <- app_assoc. simpl. do 2 f_equal.
      rewrite filter_filter. apply filter_ext. intros x.
      rewrite mem_snoc. now destruct (PySet.mem x (keys d)), (String.eqb x k).
Qed.

(** The keys of a comprehension come in the order in which the items
    first name them. *)
Lemma keys_of_items (l : list (string * V)) :
  keys (of_items l) = first_occurrences (map fst l).
Proof.
  unfold of_items. rewrite keys_fold_first_occurrences. simpl.
  now apply filter_all.
Qed.

End KeyOrder.

Lemma mapping_select_value (V : Type) (veqb : V -> V -> bool) v
    (c : MappingCombobox.t V) :
  mapping (select_value veqb v c) = mapping c.
Proof. unfold select_value. now destruct (find _ _). Qed.


(** C8. Handling a variant rebuilds the version list from the variant's
    downloads: the versions are the keys, in the order in which the
    downloads first name them, each bound to the URL of its last download;
    for downloads with distinct versions the list is the downloads, pair
    by pair.  The value of the first entry is then selected, and nothing
    is selected when there are no downloads.  For versions [1.0] at [a]
    and [1.1] at [b] the selected value is [a]. *)
Theorem handle_new_variant_versions (variant : Variant.t) (s : Flasher) :
  let combo := _version_combo (_handle_new_variant variant s) in
  let items := map (fun d => (version d, url d)) (Variant.downloads variant) in
  PyDict.keys (mapping combo)
  = first_occurrences (map version (Variant.downloads variant))
  /\ (forall k, PyDict.get k (mapping combo) = PyDict.get k (rev items))
  /\ (NoDup (map version (Variant.downloads variant)) ->
      mapping combo = items)
  /\ get_selected_value combo = option_map snd (hd_error (mapping combo))
  /\ (Variant.downloads variant = [] <-> get_selected_value combo = None)
  /\ (Variant.downloads variant
      = [{| version := "1.0"; url := "a" |};
         {| version := "1.1"; url := "b" |}] ->
      mapping combo = [("1.0", "a"); ("1.1", "b")]
      /\ get_selected_value combo = Some "a").
Proof.
  intros combo items.
  assert (Hmap : mapping combo = versions_mapping variant).
  { subst combo. unfold _handle_new_variant. cbv zeta.
    destruct (PyDict.values (versions_mapping variant)); simpl;
      [reflexivity|apply mapping_select_value]. }
  assert (Hsel : get_selected_value combo
                 = option_map snd (hd_error (mapping combo))).
  { subst combo. unfold _handle_new_variant.
    destruct (versions_mapping variant) as [|[k u] rest]; simpl;
      [reflexivity|].
    unfold select_value, get_selected_value. simpl.
    rewrite !String.eqb_refl. simpl. now rewrite String.eqb_refl. }
  split; [|split; [|split; [|split; [|split]]]].
  - rewrite Hmap. unfold versions_mapping.
    now rewrite keys_of_items, map_map.
  - intros k. rewrite Hmap. apply PyDictFacts.get_of_items.
  - intros Hnd. rewrite Hmap. apply PyDictFacts.of_items_NoDup.
    subst items. now rewrite map_map.
  - exact Hsel.
  - rewrite Hsel, Hmap. unfold versions_mapping. split.
    + now intros ->.
    + destruct (Variant.downloads variant) as [|d ds]; [reflexivity|].
      intros H. exfalso.
      assert (Hne : PyDict.of_items
                      (map (fun d => (version d, url d)) (d :: ds)) <> [])
        by (apply of_items_nonempty; discriminate).
      destruct (PyDict.of_items _); [now apply Hne|discriminate].
  - intros Hd. rewrite Hsel, Hmap. unfold versions_mapping.
    rewrite Hd. split; reflexivity.
Qed.

(** The example of the specification. *)
Lemma handle_new_variant_versions_witness :
  let variant :=
    {| Variant.vendor := "Raspberry Pi"; Variant.model := "Pico";
       Variant.family := "rp2"; Variant.title := None;
       Variant.info_url := "https://example.org/pico";
       Variant.downloads := [{| version := "1.0"; url := "a" |};
                             {| version := "1.1"; url := "b" |}] |} in
  let combo := _version_combo (_handle_new_variant variant init) in
  mapping combo = [("1.0", "a"); ("1.1", "b")]
  /\ get_selected_value combo = Some "a".
Proof.
  intros variant combo.
  apply (proj2 (proj2 (proj2 (proj2 (proj2
           (handle_new_variant_versions variant init)))))).
  reflexivity.
Defined.

Example versions_mapping_repeated_version :
  versions_mapping
    {| Variant.vendor := "v"; Variant.model := "m"; Variant.family := "f";
       Variant.title := None; Variant.info_url := "u";
       Variant.downloads := [{| version := "1.0"; url := "a" |};
                             {| version := "1.1"; url := "b" |};
                             {| version := "1.0"; url := "c" |}] |}
  = [("1.0", "c"); ("1.1", "b")].
Proof. reflexivity. Qed.

(* ================================================================== *)
(** * Volume scan: properties *)
(* ================================================================== *)

Section ScanFacts.
Import PyDict PyDictFacts.

Variable env : Env.

Lemma scan_fst paths result records :
  fst (scan env paths result records)
  = fold_left (fun d kv => set_item (fst kv) (snd kv) d)
              (target_items env paths) result.
Proof.
  revert result records; induction paths as [|p paths IH];
    intros result records; simpl; [reflexivity|].
  destruct (_create_target_info env p) as [[info lg]|]; simpl; apply IH.
Qed.

Lemma scan_snd paths result records :
  snd (scan env paths result records) = records ++ scan_records env paths.
Proof.
  revert result records; induction paths as [|p paths IH];
    intros result records; simpl; [now rewrite app_nil_r|].
  destruct (_create_target_info env p) as [[info lg]|];
    rewrite IH, <- app_assoc; reflexivity.
Qed.

Lemma target_items_creatable paths :
  target_items env (filter (creatable env) paths) = target_items env paths.
Proof.
  induction paths as [|p paths IH]; simpl; [reflexivity|].
  unfold creatable at 1.
  destruct (_create_target_info env p) as [[info lg]|] eqn:E; simpl.
  - now rewrite E, IH.
  - exact IH.
Qed.

Lemma In_target_items paths k info :
  In (k, info) (target_items env paths) <->
  exists v lg, In v paths /\ _create_target_info env v = Some (info, lg)
               /\ k = title info.
Proof.
  unfold target_items. rewrite in_flat_map. split.
  - intros (v & Hv & Hin).
    destruct (_create_target_info env v) as [[info' lg]|] eqn:E;
      [|destruct Hin].
    destruct Hin as [[= <- <-]|[]]. now exists v, lg.
  - intros (v & lg & Hv & E & ->). exists v. split; [exact Hv|].
    rewrite E. now left.
Qed.

Lemma created_without_exception v info lg :
  _create_target_info env v = Some (info, lg) ->
  filter is_exception lg = [].
Proof.
  unfold _create_target_info, _describe_target_path.
  destruct (info_isfile v); simpl; [|discriminate].
  destruct (info_read v); [|discriminate].
  destruct (String.eqb _ _); [destruct (win_volume_name v)|];
    intros [= <- <-]; reflexivity.
Qed.

Lemma scan_records_exceptions paths :
  length (filter is_exception (scan_records env paths))
  = length (filter (fun v => negb (creatable env v)) paths).
Proof.
  induction paths as [|p paths IH]; simpl; [reflexivity|].
  rewrite filter_app, length_app, IH. unfold creatable at 2.
  destruct (_create_target_info env p) as [[info lg]|] eqn:E; simpl.
  - now rewrite (created_without_exception _ E).
  - reflexivity.
Qed.

Lemma candidate_creatable v :
  In v (candidate_paths env) ->
  (_create_target_info env v = None <-> info_read v = None).
Proof.
  unfold candidate_paths. rewrite filter_In. intros [_ Hf].
  unfold _create_target_info. rewrite Hf. simpl.
  destruct (info_read v); split; congruence.
Qed.

End ScanFacts.

Lemma logged_fold_log records s :
  logged (fold_left (fun s r => log r s) records s) = logged s ++ records.
Proof.
  revert s; induction records as [|r records IH]; intros s; simpl.
  - now rewrite app_nil_r.
  - rewrite IH. simpl. now rewrite <- app_assoc.
Qed.

Lemma selections_fold_log records s :
  selections (fold_left (fun s r => log r s) records s) = selections s.
Proof.
  revert s; induction records as [|r records IH]; intros s; simpl;
    [reflexivity|]. now rewrite IH.
Qed.

(** C7. A volume is a candidate exactly when [INFO_UF2.TXT] is a file at
    its root.  A candidate whose target info cannot be created (its file
    cannot be read) costs one logged exception and nothing else: the
    result is the one of the scan over the other candidates.  Every entry
    of the result is the target info of a candidate, under its title;
    every candidate whose info can be created has its title in the
    result, bound to its info when no other such candidate has another
    info of that title.  The scan changes nothing of the dialog but the
    log. *)
Theorem find_targets_skips_failing_volumes (env : Env) (s : Flasher) :
  let result := fst (find_targets env s) in
  let after := snd (find_targets env s) in
  (forall v, In v (candidate_paths env) <->
             In v (list_volumes env) /\ info_isfile v = true)
  /\ (forall v, In v (candidate_paths env) ->
                (_create_target_info env v = None <-> info_read v = None))
  /\ (exists records,
         logged after = logged s ++ records
         /\ length (filter is_exception records)
            = length (filter (fun v => negb (creatable env v))
                             (candidate_paths env)))
  /\ result = fst (scan env (filter (creatable env) (candidate_paths env))
                        [] [])
  /\ (forall k info,
         In (k, info) result ->
         exists v lg, In v (candidate_paths env)
                      /\ _create_target_info env v = Some (info, lg)
                      /\ k = title info)
  /\ (forall v info lg,
         In v (candidate_paths env) ->
         _create_target_info env v = Some (info, lg) ->
         In (title info) (PyDict.keys result)
         /\ ((forall v' info' lg',
                 In v' (candidate_paths env) ->
                 _create_target_info env v' = Some (info', lg') ->
                 title info' = title info -> info' = info) ->
             PyDict.get (title info) result = Some info))
  /\ selections after = selections s.
Proof.
  intros result after. subst result after. unfold find_targets. simpl.
  rewrite !scan_fst, scan_snd, target_items_creatable. simpl.
  split; [|split; [|split; [|split; [|split; [|split]]]]].
  - intros v. unfold candidate_paths. apply filter_In.
  - apply candidate_creatable.
  - exists (scan_records env (candidate_paths env)).
    split; [apply logged_fold_log|apply scan_records_exceptions].
  - reflexivity.
  - intros k info Hin. apply PyDictFacts.In_of_items in Hin.
    now apply In_target_items.
  - intros v info lg Hv Hc.
    assert (Hin : In (title info, info)
                     (target_items env (candidate_paths env)))
      by (apply In_target_items; now exists v, lg).
    change (fold_left _ ?l []) with (PyDict.of_items l).
    assert (Hk : PyDict.get (title info)
                   (PyDict.of_items (target_items env (candidate_paths env)))
                 <> None).
    { rewrite PyDictFacts.get_of_items. intros Hn.
      apply PyDictFacts.get_None_iff in Hn. apply Hn.
      apply in_rev in Hin. eapply PyDictFacts.In_keys; eassumption. }
    split.
    + destruct (PyDict.get _ _) eqn:E; [|now elim Hk].
      apply PyDictFacts.get_Some_In in E.
      eapply PyDictFacts.In_keys; eassumption.
    + intros Huniq. destruct (PyDict.get _ _) as [info'|] eqn:E;
        [|now elim Hk].
      apply PyDictFacts.get_Some_In, PyDictFacts.In_of_items in E.
      apply In_target_items in E as (v' & lg' & Hv' & Hc' & Ht).
      f_equal. symmetry in Ht. eauto.
  - apply selections_fold_log.
Qed.

(** Three volumes: one without the file, one ejected during the read, one
    readable.  The last is detected under its path. *)
Lemma find_targets_skips_failing_volumes_witness :
  let env :=
    {| sys_platform := "linux";
       list_volumes :=
         [{| vol := "/media/DATA"; info_isfile := false;
             info_read := None; win_volume_name := None |};
          {| vol := "/media/GONE"; info_isfile := true;
             info_read := None; win_volume_name := None |};
          {| vol := "/media/RPI-RP2"; info_isfile := true;
             info_read := Some "Model: Raspberry Pi RP2";
             win_volume_name := None |}] |} in
  PyDict.get "/media/RPI-RP2" (fst (find_targets env init))
  = Some {| title := "/media/RPI-RP2"; path := "/media/RPI-RP2";
            family := None; model := Some "Raspberry Pi RP2";
            board_id := None |}.
Proof.
  intros env.
  destruct (find_targets_skips_failing_volumes env init)
    as (_ & _ & _ & _ & _ & H & _).
  refine (proj2 (H {| vol := "/media/RPI-RP2"; info_isfile := true;
                      info_read := Some "Model: Raspberry Pi RP2";
                      win_volume_name := None |}
                   {| title := "/media/RPI-RP2"; path := "/media/RPI-RP2";
                      family := None; model := Some "Raspberry Pi RP2";
                      board_id := None |} [] _ _) _).
  - simpl. right. left. reflexivity.
  - reflexivity.
  - intros v' info' lg' [<-|[<-|[]]] Hc _.
    + discriminate Hc.
    + now injection Hc as <-.
Defined.

Example find_targets_example :
  let env :=
    {| sys_platform := "win32";
       list_volumes :=
         [{| vol := "E:\"; info_isfile := true;
             info_read := None; win_volume_name := Some "GONE" |};
          {| vol := "F:\"; info_isfile := true;
             info_read := Some "Board-ID: RPI-RP2";
             win_volume_name := Some "RPI-RP2" |};
          {| vol := "G:\"; info_isfile := true;
             info_read := Some "Model: Feather nRF52840";
             win_volume_name := None |}] |} in
  PyDict.keys (fst (find_targets env init)) = ["RPI-RP2 (F:)"; "G:\"]
  /\ map levelname (logged (snd (find_targets env init)))
     = [EXCEPTION; ERROR].
Proof. split; reflexivity. Qed.

(* ================================================================== *)
(** * Selection controller: properties *)
(* ================================================================== *)

Lemma update_ui_blocks (env : Env) (s : Flasher) :
  update_ui env s =
  if String.eqb (_state s) "idle" then
    match variants_block (targets_block env s) with
    | Some s2 =>
        Some (_update_variant_info (versions_block (_update_target_info s2)))
    | None => None
    end
  else Some s.
Proof. reflexivity. Qed.

Lemma fold_log records s :
  fold_left (fun s r => log r s) records s
  = with_logged (logged s ++ records) s.
Proof.
  revert s; induction records as [|r records IH]; intros s; simpl.
  - rewrite app_nil_r. now destruct s.
  - rewrite IH. unfold with_logged, log. simpl. now rewrite <- app_assoc.
Qed.

Lemma NoDup_keys_detected env : NoDup (PyDict.keys (detected env)).
Proof.
  unfold detected. rewrite scan_fst.
  apply (PyDictFacts.NoDup_keys_of_items (target_items env (candidate_paths env))).
Qed.

Lemma mapping_new_target_combo targets c :
  mapping (new_target_combo targets c) = targets.
Proof.
  unfold new_target_combo.
  destruct (PyDict.values targets) as [|x [|y l]]; simpl;
    try reflexivity.
  apply mapping_select_value.
Qed.

(** The targets block in terms of the fields it writes. *)
Lemma targets_block_eq env s :
  targets_block env s =
  with_logged (logged s ++ scan_records env (candidate_paths env))
    (if negb (PyDict.eqb target_eqb (detected env)
                         (mapping (_target_combo s)))
     then with_last_handled_target None
            (with_target_combo
               (new_target_combo (detected env) (_target_combo s)) s)
     else s).
Proof.
  unfold targets_block, find_targets. rewrite fold_log, scan_snd. simpl.
  fold (detected env).
  destruct (negb _); [|reflexivity].
  unfold show_new_targets, new_target_combo. simpl.
  now destruct (PyDict.values (detected env)) as [|x [|y l]].
Qed.

Lemma handle_new_target_eq target s :
  _downloaded_variants s <> [] ->
  _handle_new_target target s
  = Some (with_variant_combo
            (new_variant_combo (_downloaded_variants s) target
                               (_variant_combo s)) s).
Proof.
  intros H. unfold _handle_new_target, new_variant_combo.
  destruct (_downloaded_variants s) as [|v0 catalog]; [now elim H|].
  cbv zeta.
  destruct (matches _ target) as [|x [|y l]];
    try reflexivity;
    destruct (get_selected_value (_variant_combo s)); try reflexivity;
    now destruct (PyDict.has_value _ _ _).
Qed.

Lemma handle_new_variant_eq variant s :
  _handle_new_variant variant s
  = with_version_combo (new_version_combo variant (_version_combo s)) s.
Proof.
  unfold _handle_new_variant, new_version_combo. cbv zeta.
  now destruct (PyDict.values (versions_mapping variant)).
Qed.

(** The variants block never raises: the assertion of
    [_handle_new_target] is guarded by the test of [update_ui]. *)
Lemma variants_block_eq s :
  variants_block s =
  Some match get_selected_value (_target_combo s) with
       | None =>
           with_variant_combo
             (select_none (set_mapping [] (_variant_combo s))) s
       | Some t =>
           if negb (PyStr.option_eqb target_eqb (Some t)
                                     (_last_handled_target s))
              && negb (Nat.eqb (length (_downloaded_variants s)) 0)
           then with_last_handled_variant None
                  (with_last_handled_target (Some t)
                     (with_variant_combo
                        (new_variant_combo (_downloaded_variants s) t
                                           (_variant_combo s)) s))
           else s
       end.
Proof.
  unfold variants_block.
  destruct (get_selected_value (_target_combo s)) as [t|]; [|reflexivity].
  destruct (negb (PyStr.option_eqb _ _ _)); simpl; [|reflexivity].
  destruct (_downloaded_variants s) as [|v0 catalog] eqn:E; simpl;
    [reflexivity|].
  rewrite handle_new_target_eq by (rewrite E; discriminate).
  now rewrite E.
Qed.

Lemma versions_block_eq s :
  versions_block s =
  match get_selected_value (_variant_combo s) with
  | None =>
      with_version_combo (set_mapping [] (select_none (_version_combo s))) s
  | Some v =>
      if negb (PyStr.option_eqb Variant.eqb (Some v)
                                (_last_handled_variant s))
      then with_last_handled_variant (Some v)
             (with_version_combo
                (new_version_combo v (_version_combo s)) s)
      else s
  end.
Proof.
  unfold versions_block.
  destruct (get_selected_value (_variant_combo s)); [|reflexivity].
  now rewrite handle_new_variant_eq.
Qed.

Lemma update_target_info_eq s :
  _update_target_info s
  = with_target_info (fst (target_info_texts (_target_combo s)))
                     (snd (target_info_texts (_target_combo s))) s.
Proof.
  unfold _update_target_info, target_info_texts.
  destruct (get_selected_value (_target_combo s)) as [t|].
  - destruct (truthy (model t)); [now destruct (PyStr.option_eqb _ _ _)|].
    destruct (truthy (board_id t)); [reflexivity|].
    now destruct (truthy (family t)).
  - now destruct (mapping (_target_combo s)).
Qed.

Lemma update_variant_info_eq s :
  _update_variant_info s
  = with_variant_info
      (fst (variant_info_texts (_downloaded_variants s) (_variant_combo s)))
      (snd (variant_info_texts (_downloaded_variants s) (_variant_combo s)))
      s.
Proof.
  unfold _update_variant_info, variant_info_texts.
  destruct (_downloaded_variants s); [reflexivity|].
  destruct (get_selected_value (_variant_combo s)); [reflexivity|].
  now destruct (mapping (_variant_combo s)).
Qed.

Ltac fields :=
  cbn [_state _downloaded_variants _last_handled_target
       _last_handled_variant _target_combo _variant_combo _version_combo
       _target_info_label _target_info_content_label
       _variant_info_content_label _variant_info_content_url
       logged text action_text progress_widgets_gridded
       with_downloaded_variants with_last_handled_target
       with_last_handled_variant with_target_combo with_variant_combo
       with_version_combo with_target_info with_variant_info with_logged
       selections] in *.

(** What one refresh does to the fields the pickers depend on. *)
Lemma targets_block_settles env s :
  let a := targets_block env s in
  PyDict.eqb target_eqb (detected env) (mapping (_target_combo a)) = true
  /\ _state a = _state s
  /\ _downloaded_variants a = _downloaded_variants s.
Proof.
  intros a. subst a. rewrite targets_block_eq.
  destruct (negb _) eqn:E; fields.
  - rewrite mapping_new_target_combo. repeat split.
    apply PyDictFacts.eqb_refl;
      [apply target_eqb_spec|apply NoDup_keys_detected].
  - apply negb_false_iff in E. now repeat split.
Qed.

Lemma option_eqb_refl_target t :
  PyStr.option_eqb target_eqb (Some t) (Some t) = true.
Proof. apply target_eqb_refl. Qed.

Lemma variants_block_settles a :
  exists b,
    variants_block a = Some b
    /\ _target_combo b = _target_combo a
    /\ _state b = _state a
    /\ _downloaded_variants b = _downloaded_variants a
    /\ match get_selected_value (_target_combo b) with
       | None => _variant_combo b = create Variant.t
       | Some t =>
           _last_handled_target b = Some t \/ _downloaded_variants b = []
       end.
Proof.
  rewrite variants_block_eq. eexists. split; [reflexivity|].
  destruct (get_selected_value (_target_combo a)) as [t|] eqn:Et.
  - destruct (PyStr.option_eqb target_eqb (Some t) (_last_handled_target a))
      eqn:E1;
      [|destruct (Nat.eqb (length (_downloaded_variants a)) 0) eqn:E2];
      cbn [negb andb]; fields; rewrite Et; repeat split.
    + left. symmetry.
      now apply (PyStrFacts.option_eqb_spec target_eqb target_eqb_spec).
    + right. apply Nat.eqb_eq in E2.
      now destruct (_downloaded_variants a).
    + now left.
  - fields. rewrite Et. now repeat split.
Qed.

Lemma versions_block_settles c :
  let d := versions_block c in
  _target_combo d = _target_combo c
  /\ _variant_combo d = _variant_combo c
  /\ _state d = _state c
  /\ _downloaded_variants d = _downloaded_variants c
  /\ _last_handled_target d = _last_handled_target c
  /\ _target_info_label d = _target_info_label c
  /\ _target_info_content_label d = _target_info_content_label c
  /\ match get_selected_value (_variant_combo d) with
     | None => _version_combo d = create string
     | Some v => _last_handled_variant d = Some v
     end.
Proof.
  intros d. subst d. rewrite versions_block_eq.
  destruct (get_selected_value (_variant_combo c)) as [v|] eqn:Ev.
  - destruct (PyStr.option_eqb Variant.eqb (Some v)
                               (_last_handled_variant c)) eqn:E1;
      cbn [negb]; fields; rewrite Ev; repeat split.
    symmetry.
    now apply (PyStrFacts.option_eqb_spec Variant.eqb variant_eqb_spec).
  - fields. rewrite Ev. now repeat split.
Qed.

(** After a refresh of an idle dialog nothing is left to do. *)
Lemma update_ui_settles env s s1 :
  _state s = "idle" ->
  update_ui env s = Some s1 ->
  settled env s1
  /\ _state s1 = "idle"
  /\ _downloaded_variants s1 = _downloaded_variants s.
Proof.
  intros Hidle. rewrite update_ui_blocks, Hidle, String.eqb_refl.
  destruct (targets_block_settles env s) as (Ha1 & Ha2 & Ha3).
  set (a := targets_block env s) in *. clearbody a.
  rewrite Hidle in Ha2. rewrite <- Ha3. clear Ha3 Hidle s.
  destruct (variants_block_settles a) as (b & -> & Hb1 & Hb2 & Hb3 & Hb4).
  intros [= <-].
  rewrite <- Hb1 in Ha1. rewrite <- Hb2 in Ha2. rewrite <- Hb3.
  clear Hb1 Hb2 Hb3 a.
  rewrite update_variant_info_eq.
  destruct (versions_block_settles (_update_target_info b))
    as (Hd1 & Hd2 & Hd3 & Hd4 & Hd5 & Hd6 & Hd7 & Hd8).
  set (d := versions_block (_update_target_info b)) in *. clearbody d.
  rewrite update_target_info_eq in Hd1, Hd2, Hd3, Hd4, Hd5, Hd6, Hd7.
  fields.
  split; [|split; congruence].
  constructor; rewrite ?update_target_info_eq, ?update_variant_info_eq;
    fields.
  - now rewrite Hd1.
  - now rewrite Hd1, Hd2, Hd5, Hd4.
  - destruct d; fields; subst; reflexivity.
  - exact Hd8.
  - reflexivity.
Qed.

Lemma variants_block_logged L s :
  variants_block (with_logged L s)
  = option_map (with_logged L) (variants_block s).
Proof.
  rewrite !variants_block_eq. fields. cbn [option_map]. f_equal.
  destruct (get_selected_value (_target_combo s)); [|reflexivity].
  now destruct (negb _ && negb _).
Qed.

Lemma versions_block_logged L s :
  versions_block (with_logged L s) = with_logged L (versions_block s).
Proof.
  rewrite !versions_block_eq. fields.
  destruct (get_selected_value (_variant_combo s)); [|reflexivity].
  now destruct (negb _).
Qed.

Lemma update_target_info_logged L s :
  _update_target_info (with_logged L s)
  = with_logged L (_update_target_info s).
Proof. now rewrite !update_target_info_eq. Qed.

Lemma update_variant_info_logged L s :
  _update_variant_info (with_logged L s)
  = with_logged L (_update_variant_info s).
Proof. now rewrite !update_variant_info_eq. Qed.

Lemma settled_variants_block env s :
  settled env s -> variants_block s = Some s.
Proof.
  intros [_ H2 _ _ _]. rewrite variants_block_eq. f_equal.
  destruct (get_selected_value (_target_combo s)) as [t|].
  - destruct H2 as [H2|H2]; rewrite H2.
    + now rewrite option_eqb_refl_target.
    + cbn [length Nat.eqb negb]. now rewrite andb_false_r.
  - destruct s. fields. now subst.
Qed.

Lemma settled_versions_block env s :
  settled env s -> versions_block s = s.
Proof.
  intros [_ _ _ H4 _]. rewrite versions_block_eq.
  destruct (get_selected_value (_variant_combo s)) as [v|].
  - rewrite H4. cbn [PyStr.option_eqb]. now rewrite variant_eqb_refl.
  - destruct s. fields. now subst.
Qed.

(** A refresh of a settled idle dialog changes nothing but the log. *)
Lemma settled_fixpoint env s :
  _state s = "idle" ->
  settled env s ->
  update_ui env s
  = Some (with_logged (logged s ++ scan_records env (candidate_paths env)) s).
Proof.
  intros Hidle Hs.
  rewrite update_ui_blocks, Hidle, String.eqb_refl, targets_block_eq.
  rewrite (settled_targets Hs). cbn [negb].
  rewrite variants_block_logged, (settled_variants_block Hs).
  cbn [option_map].
  rewrite update_target_info_logged, (settled_target_info Hs).
  rewrite versions_block_logged, (settled_versions_block Hs).
  now rewrite update_variant_info_logged, (settled_variant_info Hs).
Qed.

(** A refresh always returns. *)
Lemma update_ui_total env s : exists s1, update_ui env s = Some s1.
Proof.
  rewrite update_ui_blocks. destruct (String.eqb _ _); [|now exists s].
  destruct (variants_block_settles (targets_block env s)) as (b & -> & _).
  eexists. reflexivity.
Qed.

(** C5. The refresh step is idempotent.  From every state of the dialog a
    refresh returns, and a second refresh in the same environment returns
    a state that differs from the first result in the log only: the three
    pickers with their selections and the two markers are the same.  After
    the first refresh of an idle dialog nothing is left to do: a selected
    target is the last handled one unless the catalog is empty, and a
    selected variant is the last handled one. *)
Theorem update_ui_idempotent (env : Env) (s : Flasher) :
  exists s1 s2,
    update_ui env s = Some s1
    /\ update_ui env s1 = Some s2
    /\ selections s2 = selections s1
    /\ _last_handled_target s2 = _last_handled_target s1
    /\ _last_handled_variant s2 = _last_handled_variant s1
    /\ s2 = with_logged (logged s2) s1
    /\ (if String.eqb (_state s) "idle" then settled env s1 else s1 = s).
Proof.
  destruct (update_ui_total env s) as [s1 H1]. exists s1.
  destruct (String.eqb (_state s) "idle") eqn:E.
  - apply String.eqb_eq in E.
    destruct (update_ui_settles env s E H1) as (Hs & Hidle & _).
    eexists. split; [exact H1|].
    split; [now apply settled_fixpoint|].
    do 4 (split; [reflexivity|]). exact Hs.
  - exists s1. rewrite update_ui_blocks, E in H1. injection H1 as <-.
    rewrite update_ui_blocks, E. repeat split. now destruct s.
Qed.

(* ------------------------------------------------------------------ *)
(** ** The downloading message *)

Lemma variant_info_texts_downloading catalog c :
  (fst (variant_info_texts catalog c) = downloading_message
   /\ snd (variant_info_texts catalog c) = None)
  <-> catalog = [].
Proof.
  unfold variant_info_texts. destruct catalog as [|v0 catalog].
  - now split.
  - split; [|discriminate]. intros [H1 H2]. exfalso.
    destruct (get_selected_value c); [discriminate H2|].
    destruct (mapping c); discriminate H1.
Qed.

Lemma settled_shows_downloading env s :
  settled env s -> (shows_downloading s <-> _downloaded_variants s = []).
Proof.
  intros Hs. rewrite <- (variant_info_texts_downloading _ (_variant_combo s)).
  pose proof (settled_variant_info Hs) as H.
  rewrite update_variant_info_eq in H. unfold shows_downloading.
  destruct s. fields. injection H as H1 H2. now rewrite H1, H2.
Qed.

Lemma refreshes_idle envs s s1 :
  _state s = "idle" ->
  refreshes envs s = Some s1 ->
  _state s1 = "idle" /\ _downloaded_variants s1 = _downloaded_variants s.
Proof.
  revert s; induction envs as [|env envs IH]; intros s Hidle; simpl.
  - now intros [= <-].
  - destruct (update_ui env s) as [s'|] eqn:E; [|discriminate].
    destruct (update_ui_settles env s Hidle E) as (_ & H1 & H2).
    intros H. destruct (IH _ H1 H) as [H3 H4]. split; congruence.
Qed.

Lemma refreshes_snoc envs env s :
  refreshes (envs ++ [env]) s
  = match refreshes envs s with
    | Some s' => update_ui env s'
    | None => None
    end.
Proof.
  revert s; induction envs as [|e envs IH]; intros s; simpl.
  - now destruct (update_ui env s).
  - destruct (update_ui e s); [apply IH|reflexivity].
Qed.

Lemma downloaded_after_fetch r s :
  _downloaded_variants (_download_variants r s)
  = match r with
    | Fetched json => json
    | FetchFailed => _downloaded_variants s
    end.
Proof. now destruct r. Qed.

Lemma state_after_fetch r s : _state (_download_variants r s) = _state s.
Proof. now destruct r. Qed.

(** C1, as the claim has it, fails: on a refresh after the fetch has
    failed, and on one after it has brought the empty array, the display
    still shows the downloading message. *)
Lemma downloading_message_after_fetch_finished :
  let env := {| sys_platform := "linux"; list_volumes := [] |} in
  option_map _variant_info_content_label
    (update_ui env (_download_variants FetchFailed init))
  = Some "[downloading variants info ...]"
  /\ option_map _variant_info_content_label
       (update_ui env (_download_variants (Fetched []) init))
     = Some "[downloading variants info ...]".
Proof. split; reflexivity. Qed.

(** C1, amended.  The dialog keeps no flag for the end of the fetch.  A
    refresh of the idle dialog shows the downloading message exactly when
    the stored catalog is empty.  The fetch stores the array it brings and
    stores nothing when it fails, and a refresh leaves the catalog alone;
    so after a fetch that started from the empty catalog, every refresh
    shows the message exactly when the fetch failed or brought the empty
    array. *)
Theorem downloading_message_iff_catalog_empty (s : Flasher) :
  _state s = "idle" ->
  (forall env s1,
      update_ui env s = Some s1 ->
      (shows_downloading s1 <-> _downloaded_variants s = [])
      /\ _downloaded_variants s1 = _downloaded_variants s)
  /\ (forall r,
         _downloaded_variants (_download_variants r s)
         = match r with
           | Fetched json => json
           | FetchFailed => _downloaded_variants s
           end)
  /\ (_downloaded_variants s = [] ->
      forall r envs env s1,
        refreshes (envs ++ [env]) (_download_variants r s) = Some s1 ->
        (shows_downloading s1 <-> r = FetchFailed \/ r = Fetched [])).
Proof.
  intros Hidle. split; [|split].
  - intros env s1 H.
    destruct (update_ui_settles env s Hidle H) as (Hs & _ & Hc).
    split; [|exact Hc]. rewrite <- Hc. exact (settled_shows_downloading Hs).
  - intros r. apply downloaded_after_fetch.
  - intros Hempty r envs env s1. rewrite refreshes_snoc.
    destruct (refreshes envs (_download_variants r s)) as [s'|] eqn:E;
      [|discriminate].
    apply refreshes_idle in E as [E1 E2];
      [|now rewrite state_after_fetch].
    intros H. destruct (update_ui_settles env s' E1 H) as (Hs & _ & Hc).
    rewrite (settled_shows_downloading Hs), Hc, E2, downloaded_after_fetch.
    destruct r as [json|].
    + split; [intros ->; now right|intros [H1|[= ->]]];
        [discriminate|reflexivity].
    + rewrite Hempty. split; [now left|reflexivity].
Qed.

(** Before the fetch has ended the first refresh shows the message. *)
Lemma downloading_message_iff_catalog_empty_witness :
  let env := {| sys_platform := "linux"; list_volumes := [] |} in
  exists s1, update_ui env init = Some s1 /\ shows_downloading s1.
Proof.
  intros env. eexists. split; [reflexivity|].
  refine (proj2 (proj1 (proj1 (downloading_message_iff_catalog_empty
                                 init eq_refl) env _ eq_refl)) eq_refl).
Defined.

(* ------------------------------------------------------------------ *)
(** ** The auto-select policy *)



(** C4.  The policy misses its last case.  With a single exact match the
    match is selected, and failing that a previous selection that is still
    offered stays ([handle_new_target_policy]); but when neither holds,
    [_handle_new_target] ends without clearing the picker, where
    [_handle_new_variant] and [update_ui] call [select_none].  The
    description left in the picker then selects a variant as soon as a
    filtered mapping holds it again.  Three boards are plugged in one
    after the other, each seen by one refresh: a Feather M0 Express, which
    matches its catalog entry exactly; an nRF52 module without model,
    whose list does not hold that entry, so that nothing is selected; a
    SAMD21 board of unknown model, which matches nothing exactly and
    follows a state without selection.  The claim leaves the last board
    without variant, as happens when it is plugged in first; the dialog
    selects the Feather M0 Express entry for it. *)
Theorem stale_description_selects_variant :
  let x := {| Variant.vendor := "Adafruit";
              Variant.model := "Feather M0 Express";
              Variant.family := "samd21"; Variant.title := None;
              Variant.info_url := "https://example.org/feather-m0";
              Variant.downloads :=
                [{| version := "1.20.0";
                    url := "https://example.org/feather-m0.uf2" |}] |} in
  let y := {| Variant.vendor := "Adafruit";
              Variant.model := "Feather nRF52840 Express";
              Variant.family := "nrf52"; Variant.title := None;
              Variant.info_url := "https://example.org/feather-nrf52840";
              Variant.downloads := [] |} in
  let z := {| Variant.vendor := "Arduino"; Variant.model := "Zero";
              Variant.family := "samd21"; Variant.title := None;
              Variant.info_url := "https://example.org/zero";
              Variant.downloads := [] |} in
  let plugged content :=
    {| sys_platform := "linux";
       list_volumes := [{| vol := "/media/BOOT"; info_isfile := true;
                           info_read := Some content;
                           win_volume_name := None |}] |} in
  let env1 := plugged ("Model: Feather M0 Express"
                         ++ String "010" "Board-ID: SAMD21G18A-Feather-v0")%string in
  let env2 := plugged "Board-ID: nRF52840-module" in
  let env3 := plugged "Model: Unnamed SAMD21 board" in
  let target3 := {| title := "/media/BOOT"; path := "/media/BOOT";
                    family := Some "samd21";
                    model := Some "Unnamed SAMD21 board";
                    board_id := None |} in
  let s0 := _download_variants (Fetched [x; y; z]) init in
  let selected s := get_selected_value (_variant_combo s) in
  option_map selected (refreshes [env1] s0) = Some (Some x)
  /\ option_map (fun s => (selected s, desc (_variant_combo s)))
       (refreshes [env1; env2] s0)
     = Some (None, "Adafruit • Feather M0 Express")
  /\ matches (filtered_mapping [x; y; z] target3) target3 = []
  /\ match refreshes [env1; env2] s0 with
     | Some s2 =>
         option_map selected (_handle_new_target target3 s2) = Some (Some x)
     | None => False
     end
  /\ option_map selected (refreshes [env1; env2; env3] s0) = Some (Some x)
  /\ option_map selected (refreshes [env3] s0) = Some None.
Proof.
  vm_compute. repeat (split; [reflexivity|]). reflexivity.
Qed.

(* ================================================================== *)
(** * Further properties of the matcher *)
(* ================================================================== *)


(** X1. Whatever [str.lower()] and [str.split()] do to other text, as
    long as on ASCII text they lower the capitals and split on white
    space: for a target whose family is a prefix of the variant's and
    whose model, like the variant's model and vendor, is ASCII text, the
    plain comparison of the models adds nothing to the one with the
    vendor appended: the test holds exactly when the two models have the
    same normalized words apart from the words of the variant's vendor. *)
Theorem exact_match_up_to_vendor_words
    (str_lower : string -> string) (str_split : string -> list string)
    (variant : Variant.t) (target : Uf2TargetInfo) (f m : string) :
  on_ascii str_lower PyStr.lower ->
  on_ascii str_split PyStr.split ->
  ascii_text m ->
  ascii_text (Variant.model variant) ->
  ascii_text (Variant.vendor variant) ->
  family target = Some f ->
  is_prefix f (Variant.family variant) ->
  model target = Some m ->
  let words := Unicode._extract_normalized_words str_lower str_split in
  (Unicode._variant_is_meant_for_target str_lower str_split variant target
   = true <->
   forall w,
     In w (words m) \/ In w (words (Variant.vendor variant))
     <->
     In w (words (Variant.model variant))
     \/ In w (words (Variant.vendor variant))).
Proof.
  intros Hl Hs Am Av Ad Hf Hp Hm words. subst words.
  rewrite (meant_on_ascii Hl Hs)
    by (try assumption; intros m' Hm'; rewrite Hm in Hm';
        injection Hm' as <-; exact Am).
  rewrite !(words_on_ascii Hl Hs) by assumption.
  unfold _variant_is_meant_for_target.
  apply PyStrFacts.startswith_spec in Hp. rewrite Hf, Hp, Hm.
  cbn [negb]. rewrite orb_true_iff, !PySetFacts.eqb_spec.
  rewrite !extract_normalized_words_app.
  split.
  - intros [H|H] w; [rewrite (H w); tauto|].
    rewrite <- !in_app_iff. apply H.
  - intros H. right. intros w. rewrite !in_app_iff. apply H.
Qed.

(** A target that names its board without the vendor and in another
    order of words. *)
Lemma exact_match_up_to_vendor_words_witness :
  Unicode._variant_is_meant_for_target PyStr.lower PyStr.split
    {| Variant.vendor := "Adafruit";
       Variant.model := "Adafruit Feather M0 Express";
       Variant.family := "samd21"; Variant.title := None;
       Variant.info_url := "https://example.org/feather-m0";
       Variant.downloads := [] |}
    {| title := "/media/FEATHERBOOT"; path := "/media/FEATHERBOOT";
       family := Some "samd21"; model := Some "Express_M0 feather";
       board_id := None |} = true.
Proof.
  apply (proj2 (@exact_match_up_to_vendor_words PyStr.lower PyStr.split
                  {| Variant.vendor := "Adafruit";
                     Variant.model := "Adafruit Feather M0 Express";
                     Variant.family := "samd21"; Variant.title := None;
                     Variant.info_url := "https://example.org/feather-m0";
                     Variant.downloads := [] |}
                  {| title := "/media/FEATHERBOOT";
                     path := "/media/FEATHERBOOT";
                     family := Some "samd21";
                     model := Some "Express_M0 feather";
                     board_id := None |}
                  "samd21" "Express_M0 feather"
                  (fun _ _ => eq_refl) (fun _ _ => eq_refl)
                  (@ascii_textb_spec "Express_M0 feather" eq_refl)
                  (@ascii_textb_spec "Adafruit Feather M0 Express" eq_refl)
                  (@ascii_textb_spec "Adafruit" eq_refl)
                  eq_refl (ex_intro _ "" eq_refl) eq_refl)).
  intros w. vm_compute. tauto.
Defined.

(** X2. Whatever [str.lower()] and [str.split()] do to other text, as
    long as on ASCII text they lower the capitals and split on white
    space: every normalized word of an ASCII text is non-empty, made of
    ASCII characters, free of white space, capitals, underscores and
    hyphens, and each of its characters is the small form of a character
    of the text. *)
Theorem normalized_words_shape
    (str_lower : string -> string) (str_split : string -> list string)
    (text w : string) :
  on_ascii str_lower PyStr.lower ->
  on_ascii str_split PyStr.split ->
  ascii_text text ->
  In w (Unicode._extract_normalized_words str_lower str_split text) ->
  w <> EmptyString
  /\ forall c, In c (chars w) ->
       ascii_char c = true
       /\ ~ In (nat_of_ascii c) white_space
       /\ ~ 65 <= nat_of_ascii c <= 90
       /\ c <> "_"%char /\ c <> "-"%char
       /\ exists c0, In c0 (chars text) /\ lowercase_of c0 c.
Proof.
  intros Hl Hs Ha H. rewrite (words_on_ascii Hl Hs Ha) in H.
  destruct (extract_normalized_words_normal text w H) as [H1 H2].
  split; [exact H1|]. intros c Hc.
  destruct (H2 c Hc) as (Hsp & Hu & Hlo & Hh).
  unfold _extract_normalized_words in H.
  apply split_words in H as [_ H3]. destruct (H3 c Hc) as [_ Hin].
  apply chars_lower in Hin as (c0 & Hin & ->).
  apply chars_replace in Hin as [[_ Hin]|[]].
  apply chars_replace in Hin as [[_ Hin]|[<-|[]]];
    [|exfalso; now apply Hlo].
  split; [apply ascii_char_lower; now apply Ha|].
  split; [now apply is_space_not_white|].
  split.
  { intros [U1 U2]. unfold PyStr.is_upper in Hu.
    apply Nat.leb_le in U1, U2. rewrite U1, U2 in Hu. discriminate Hu. }
  repeat (split; [assumption|]).
  exists c0. split; [exact Hin|apply lower_char_lowercase_of].
Qed.

Lemma normalized_words_shape_witness :
  "express" <> EmptyString
  /\ forall c, In c (chars "express") ->
       ascii_char c = true
       /\ ~ In (nat_of_ascii c) white_space
       /\ ~ 65 <= nat_of_ascii c <= 90
       /\ c <> "_"%char /\ c <> "-"%char
       /\ exists c0, In c0 (chars "Feather_M0  Ex-press")
                     /\ lowercase_of c0 c.
Proof.
  apply (@normalized_words_shape PyStr.lower PyStr.split
           "Feather_M0  Ex-press" "express"
           (fun _ _ => eq_refl) (fun _ _ => eq_refl)
           (@ascii_textb_spec "Feather_M0  Ex-press" eq_refl)).
  vm_compute. tauto.
Defined.

(* ------------------------------------------------------------------ *)
(** ** Stripping, and the title of a target *)

Section StripFacts.
Import PyStr.

Lemma append_nil_r (s : string) : (s ++ "")%string = s.
Proof. induction s; simpl; congruence. Qed.

Lemma lstrip_spec c s :
  exists a, s = (a ++ lstrip c s)%string
            /\ only_char c a
            /\ ~ is_prefix (String c "") (lstrip c s).
Proof.
  induction s as [|d s IH].
  - exists "". repeat split; [intros x []|]. intros [r E]. discriminate E.
  - cbn [lstrip]. destruct (Ascii.eqb_spec d c) as [->|Hne].
    + destruct IH as (a & E & Ha & Hp). exists (String c a).
      split; [simpl; now rewrite <- E|]. split; [|exact Hp].
      intros x [<-|Hx]; [reflexivity|now apply Ha].
    + exists "". repeat split; [intros x []|].
      intros [r E]. injection E as E _. contradiction.
Qed.

Lemma rstrip_spec c s :
  exists b, s = (rstrip c s ++ b)%string
            /\ only_char c b
            /\ forall p, rstrip c s <> (p ++ String c "")%string.
Proof.
  induction s as [|d s IH].
  - exists "". repeat split; [intros x []|].
    intros [|e p] E; discriminate E.
  - destruct IH as (b & E & Hb & Hend). cbn [rstrip].
    destruct (rstrip c s) as [|e r] eqn:Er.
    + destruct (Ascii.eqb_spec d c) as [->|Hne].
      * exists (String c b). simpl in E. subst s.
        repeat split.
        -- intros x [<-|Hx]; [reflexivity|now apply Hb].
        -- intros [|e p] E'; discriminate E'.
      * exists b. simpl in E. subst s. repeat split; [exact Hb|].
        intros [|e [|e' p]] E'; try discriminate E'.
        injection E' as E'. contradiction.
    + exists b. split; [simpl in *; now rewrite E at 1|].
      split; [exact Hb|].
      intros [|e' p] E'; [discriminate E'|].
      injection E' as -> E'. now apply (Hend p).
Qed.

(** What [strip] leaves: the text between the leading and the trailing
    run of the character. *)
Lemma strip_spec c s :
  exists a b, s = (a ++ strip c s ++ b)%string
              /\ only_char c a /\ only_char c b
              /\ ~ is_prefix (String c "") (strip c s)
              /\ forall p, strip c s <> (p ++ String c "")%string.
Proof.
  unfold strip.
  destruct (lstrip_spec c s) as (a & Ea & Ha & Hp).
  destruct (rstrip_spec c (lstrip c s)) as (b & Eb & Hb & Hend).
  exists a, b. split; [now rewrite <- Eb|].
  repeat split; try assumption.
  intros [r E]. apply Hp. rewrite Eb, E. simpl. now exists (r ++ b)%string.
Qed.

End StripFacts.

(** X3. The title of a target.  Off Windows it is the path of the volume.
    On Windows, with the volume name at hand, it is the name followed by
    the disk in parentheses, the disk being the path without the
    backslashes it begins and ends with; when the name cannot be queried
    it is the path, and one error is logged. *)
Theorem describe_target_path_title (env : Env) (v : Volume) :
  (sys_platform env <> "win32" ->
   _describe_target_path env v = (vol v, []))
  /\ (sys_platform env = "win32" ->
      forall label, win_volume_name v = Some label ->
        exists a disk b,
          vol v = (a ++ disk ++ b)%string
          /\ only_char "\" a /\ only_char "\" b
          /\ ~ is_prefix "\" disk
          /\ (forall p, disk <> (p ++ "\")%string)
          /\ _describe_target_path env v
             = ((label ++ " (" ++ disk ++ ")")%string, []))
  /\ (sys_platform env = "win32" ->
      win_volume_name v = None ->
      fst (_describe_target_path env v) = vol v
      /\ map levelname (snd (_describe_target_path env v)) = [ERROR]).
Proof.
  unfold _describe_target_path. split; [|split].
  - intros H. destruct (String.eqb_spec (sys_platform env) "win32");
      [contradiction|reflexivity].
  - intros -> label ->. cbn [String.eqb Ascii.eqb Bool.eqb].
    destruct (strip_spec "\" (vol v)) as (a & b & E & Ha & Hb & Hp & He).
    exists a, (PyStr.strip "\" (vol v)), b. now repeat split.
  - intros -> ->. now split.
Qed.

Lemma describe_target_path_title_witness :
  exists a disk b,
    "\\E:\" = (a ++ disk ++ b)%string
    /\ only_char "\" a /\ only_char "\" b
    /\ ~ is_prefix "\" disk
    /\ (forall p, disk <> (p ++ "\")%string)
    /\ _describe_target_path
         {| sys_platform := "win32"; list_volumes := [] |}
         {| vol := "\\E:\"; info_isfile := true; info_read := None;
            win_volume_name := Some "RPI-RP2" |}
       = ((("RPI-RP2" ++ " (") ++ disk ++ ")")%string, []).
Proof.
  destruct (describe_target_path_title
              {| sys_platform := "win32"; list_volumes := [] |}
              {| vol := "\\E:\"; info_isfile := true; info_read := None;
                 win_volume_name := Some "RPI-RP2" |}) as (_ & H & _).
  apply (H eq_refl "RPI-RP2" eq_refl).
Defined.

(* ------------------------------------------------------------------ *)
(** ** The inferred family *)

Section FamilyFacts.
Import PyStr.

Lemma lower_char_idempotent c : lower_char (lower_char c) = lower_char c.
Proof. destruct c as [[] [] [] [] [] [] [] []]; reflexivity. Qed.

Lemma lower_idempotent s : lower (lower s) = lower s.
Proof.
  induction s as [|c s IH]; simpl; [reflexivity|].
  now rewrite lower_char_idempotent, IH.
Qed.

Lemma first_keyword_in keywords content k :
  first_keyword keywords content = Some k ->
  In k keywords /\ contains content k = true.
Proof.
  induction keywords as [|k0 ks IH]; simpl; [discriminate|].
  destruct (contains content k0) eqn:E.
  - intros [= <-]. split; [now left|exact E].
  - intros H. destruct (IH H). split; [now right|assumption].
Qed.

End FamilyFacts.

(** X4. The inferred family is one of the six known families or absent,
    and a family is inferred only from a text in whose normalized form
    its marker occurs: ["boardid:rpirp2"] for ["rp2"], the name of the
    family for the others.  The inference ignores the case of the letters
    and every space, underscore and hyphen of the text. *)
Theorem infer_family_known_and_insensitive (content : string) :
  (forall f, infer_family content = Some f ->
             In f known_families
             /\ occurs_in (if String.eqb f "rp2" then "boardid:rpirp2" else f)
                          (strip_separators (PyStr.lower content)))
  /\ infer_family (PyStr.lower content) = infer_family content
  /\ (forall other, PyStr.lower other = PyStr.lower content ->
                    infer_family other = infer_family content)
  /\ (forall a b sep,
         content = (a ++ String sep b)%string ->
         sep = " "%char \/ sep = "_"%char \/ sep = "-"%char ->
         infer_family (a ++ b) = infer_family content).
Proof.
  split; [|split; [|split]].
  - intros f. unfold infer_family. rewrite normalized_content_strip.
    destruct (PyStr.contains _ "boardid:rpirp2") eqn:E.
    + intros [= <-]. split; [now left|].
      now apply PyStrFacts.contains_spec.
    + intros H. apply first_keyword_in in H as [Hin Hc].
      split.
      * unfold known_families. right.
        destruct Hin as [<-|[<-|[<-|[<-|[<-|[<-|[]]]]]]]; simpl; tauto.
      * apply PyStrFacts.contains_spec in Hc.
        destruct Hin as [<-|[<-|[<-|[<-|[<-|[<-|[]]]]]]]; exact Hc.
  - unfold infer_family, normalized_content. now rewrite lower_idempotent.
  - intros other H. unfold infer_family, normalized_content. now rewrite H.
  - intros a b sep -> Hsep. unfold infer_family.
    rewrite !normalized_content_app.
    change (String sep b) with (String sep "" ++ b)%string.
    rewrite normalized_content_app.
    now destruct Hsep as [-> | [-> | ->]].
Qed.

(** The board id of a Feather, with and without its last hyphen. *)
Lemma infer_family_known_and_insensitive_witness :
  In "nrf52" known_families
  /\ infer_family "Board-ID: nRF52840Feather"
     = infer_family "Board-ID: nRF52840-Feather".
Proof.
  destruct (infer_family_known_and_insensitive "Board-ID: nRF52840-Feather")
    as (H1 & _ & _ & H4).
  split.
  - apply (H1 "nrf52" eq_refl).
  - apply (H4 "Board-ID: nRF52840" "Feather" "-"%char eq_refl).
    right. right. reflexivity.
Defined.

(* ------------------------------------------------------------------ *)
(** ** The lines of the metadata file *)

Section LineFacts.
Import PyStr.

Lemma no_linebreak_nil : no_linebreak "".
Proof. intros c []. Qed.

Lemma no_linebreak_snoc cur c :
  no_linebreak cur -> is_linebreak c = false ->
  no_linebreak (cur ++ String c "").
Proof.
  intros Hcur Hc x Hx. unfold chars in Hx.
  apply chars_append in Hx as [Hx|[<-|[]]]; [now apply Hcur|exact Hc].
Qed.

Lemma splitlines_from_no_linebreak n :
  forall s cur l,
    String.length s <= n ->
    no_linebreak cur ->
    In l (splitlines_from cur s) -> no_linebreak l.
Proof.
  induction n as [|n IH]; intros s cur l Hn Hcur.
  - destruct s; [|simpl in Hn; lia]. simpl.
    destruct cur; [intros []|intros [<-|[]]; exact Hcur].
  - destruct s as [|c s].
    + simpl. destruct cur; [intros []|intros [<-|[]]; exact Hcur].
    + simpl in Hn. cbn [splitlines_from].
      destruct (Ascii.eqb c "013").
      * destruct s as [|d s].
        -- intros [<-|H]; [exact Hcur|].
           apply (IH "" "" l); [simpl; lia|apply no_linebreak_nil|exact H].
        -- destruct (Ascii.eqb d "010").
           ++ intros [<-|H]; [exact Hcur|].
              apply (IH s "" l); [simpl in Hn; lia|apply no_linebreak_nil|
                                  exact H].
           ++ intros [<-|H]; [exact Hcur|].
              apply (IH (String d s) "" l);
                [lia|apply no_linebreak_nil|exact H].
      * destruct (is_linebreak c) eqn:Ec.
        -- intros [<-|H]; [exact Hcur|].
           apply (IH s "" l); [lia|apply no_linebreak_nil|exact H].
        -- apply IH; [lia|now apply no_linebreak_snoc].
Qed.

(** No line of [splitlines] holds a line boundary. *)
Lemma splitlines_no_linebreak s l :
  In l (splitlines s) -> no_linebreak l.
Proof.
  apply (splitlines_from_no_linebreak (n := String.length s));
    [lia|apply no_linebreak_nil].
Qed.

Lemma splitlines_from_line cur l rest :
  no_linebreak l ->
  splitlines_from cur (l ++ String "010" rest)
  = (cur ++ l)%string :: splitlines_from "" rest.
Proof.
  revert cur; induction l as [|c l IH]; intros cur Hl.
  - simpl. now rewrite append_nil_r.
  - change (String c l ++ String "010" rest)%string
      with (String c (l ++ String "010" rest)).
    cbn [splitlines_from].
    assert (Hc : is_linebreak c = false) by (apply Hl; now left).
    destruct (Ascii.eqb_spec c "013") as [->|_]; [discriminate Hc|].
    rewrite Hc, IH.
    + now rewrite append_assoc.
    + intros x Hx. apply Hl. now right.
Qed.

(** Lines without boundary, each ended by a line feed, are read back as
    they were written. *)
Lemma splitlines_unlines lines :
  (forall l, In l lines -> no_linebreak l) ->
  splitlines (unlines lines) = lines.
Proof.
  unfold splitlines. induction lines as [|l lines IH]; intros H;
    [reflexivity|].
  cbn [unlines]. rewrite splitlines_from_line by (apply H; now left).
  rewrite IH; [reflexivity|]. intros l' Hl'. apply H. now right.
Qed.

Lemma chars_drop n s c : In c (chars (drop n s)) -> In c (chars s).
Proof.
  revert s; induction n as [|n IH]; intros [|d s]; simpl; auto.
Qed.

Lemma find_uf2_property_in lines P v :
  find_uf2_property lines P = Some v ->
  exists line, In line lines /\ forall c, In c (chars v) -> In c (chars line).
Proof.
  induction lines as [|l lines IH]; simpl; [discriminate|].
  destruct (startswith l (P ++ ": ")).
  - intros [= <-]. exists l. split; [now left|]. intros c. apply chars_drop.
  - intros H. destruct (IH H) as (line & Hin & Hc). exists line.
    split; [now right|exact Hc].
Qed.

Lemma find_uf2_property_no_linebreak s P v :
  find_uf2_property (splitlines s) P = Some v -> no_linebreak v.
Proof.
  intros H. apply find_uf2_property_in in H as (line & Hin & Hc).
  intros c Hv. apply (splitlines_no_linebreak s line Hin). now apply Hc.
Qed.

Lemma infer_family_known content f :
  infer_family content = Some f -> In f known_families.
Proof.
  unfold infer_family.
  destruct (contains _ "boardid:rpirp2"); [intros [= <-]; now left|].
  intros H. apply first_keyword_in in H as [Hin _]. unfold known_families.
  right. destruct Hin as [<-|[<-|[<-|[<-|[<-|[<-|[]]]]]]]; simpl; tauto.
Qed.

Lemma splitlines_from_chars n :
  forall s cur l c,
    String.length s <= n ->
    In l (splitlines_from cur s) -> In c (chars l) ->
    In c (chars cur) \/ In c (chars s).
Proof.
  induction n as [|n IH]; intros s cur l c Hn.
  - destruct s; [|simpl in Hn; lia]. simpl.
    destruct cur; [intros []|intros [<-|[]]; now left].
  - destruct s as [|d s].
    + simpl. destruct cur; [intros []|intros [<-|[]]; now left].
    + simpl in Hn. cbn [splitlines_from].
      assert (Hrest : forall s', String.length s' <= n ->
                (forall x, In x (chars s') -> In x (chars (String d s))) ->
                In l (cur :: splitlines_from "" s') -> In c (chars l) ->
                In c (chars cur) \/ In c (chars (String d s))).
      { intros s' Hs' Hsub [<-|H] Hc; [now left|].
        destruct (IH s' "" l c Hs' H Hc) as [[]|Hx]. right. now apply Hsub. }
      destruct (Ascii.eqb d "013").
      * destruct s as [|e s].
        -- apply Hrest; [simpl; lia|intros x []].
        -- destruct (Ascii.eqb e "010").
           ++ apply Hrest; [simpl in Hn; lia|].
              intros x Hx. right. now right.
           ++ apply Hrest; [lia|]. intros x Hx. now right.
      * destruct (is_linebreak d).
        -- apply Hrest; [lia|]. intros x Hx. now right.
        -- intros H Hc. destruct (IH s _ l c ltac:(lia) H Hc) as [Hx|Hx].
           ++ unfold chars in Hx. apply chars_append in Hx as [Hx|[<-|[]]];
                [now left|right; now left].
           ++ right. now right.
Qed.

(** The characters of a line of [splitlines] are characters of the text. *)
Lemma splitlines_chars s l c :
  In l (splitlines s) -> In c (chars l) -> In c (chars s).
Proof.
  intros H Hc.
  destruct (splitlines_from_chars (n := String.length s) s "" l c
              (le_n _) H Hc) as [[]|Hx]; exact Hx.
Qed.

Lemma find_uf2_property_ascii s P v :
  ascii_text s ->
  find_uf2_property (splitlines s) P = Some v -> ascii_text v.
Proof.
  intros Ha H. apply find_uf2_property_in in H as (line & Hin & Hc).
  intros c Hv. apply Ha, (splitlines_chars s line c Hin). now apply Hc.
Qed.

Lemma ascii_text_unlines lines :
  (forall l, In l lines -> ascii_text l) -> ascii_text (unlines lines).
Proof.
  induction lines as [|l lines IH]; intros H; [intros c []|].
  cbn [unlines]. apply ascii_text_append; [apply H; now left|].
  intros c [<-|Hc]; [reflexivity|]. apply IH; [|exact Hc].
  intros l' Hl'. apply H. now right.
Qed.

Lemma unicode_infer_family_known str_lower content f :
  Unicode.infer_family str_lower content = Some f -> In f known_families.
Proof.
  unfold Unicode.infer_family.
  destruct (contains _ "boardid:rpirp2"); [intros [= <-]; now left|].
  intros H. apply first_keyword_in in H as [Hin _]. unfold known_families.
  right. destruct Hin as [<-|[<-|[<-|[<-|[<-|[<-|[]]]]]]]; simpl; tauto.
Qed.

Lemma unicode_infer_family_ascii str_lower content :
  on_ascii str_lower lower -> ascii_text content ->
  Unicode.infer_family str_lower content = infer_family content.
Proof.
  intros Hl Ha.
  unfold Unicode.infer_family, infer_family, Unicode.normalized_content,
    normalized_content.
  now rewrite (Hl content Ha).
Qed.

End LineFacts.

(** X5. Whatever [str.lower()] and [str.splitlines()] do to other text,
    as long as on ASCII text they lower the capitals and break at the line
    boundaries of ASCII: creating the target info fails exactly when the
    file is missing or cannot be read.  When it succeeds, the info carries
    the path of the volume and a known family or none; when the file is
    ASCII text, its model and its board id are ASCII text without line
    boundary.  For a file written as lines of ASCII text, each ended by a
    line feed, the model and the board id are the values of the first
    [Model: ] and [Board-ID: ] lines, and the family is the one inferred
    from the text. *)
Theorem create_target_info_fields
    (str_lower : string -> string) (str_splitlines : string -> list string)
    (env : Env) (v : Volume) :
  on_ascii str_lower PyStr.lower ->
  on_ascii str_splitlines PyStr.splitlines ->
  let create := Unicode._create_target_info str_lower str_splitlines in
  (create env v = None <-> info_isfile v = false \/ info_read v = None)
  /\ (forall info lg,
         create env v = Some (info, lg) ->
         path info = vol v
         /\ (forall f, family info = Some f -> In f known_families)
         /\ (forall content,
                info_read v = Some content -> ascii_text content ->
                (forall m, model info = Some m ->
                           no_linebreak m /\ ascii_text m)
                /\ (forall b, board_id info = Some b ->
                              no_linebreak b /\ ascii_text b)))
  /\ (forall lines,
         info_isfile v = true ->
         info_read v = Some (unlines lines) ->
         (forall l, In l lines -> ascii_text l /\ no_linebreak l) ->
         option_map (fun r => (path (fst r), family (fst r),
                               model (fst r), board_id (fst r)))
                    (create env v)
         = Some (vol v, infer_family (unlines lines),
                 find_uf2_property lines "Model",
                 find_uf2_property lines "Board-ID")).
Proof.
  intros Hlo Hsl create. subst create.
  unfold Unicode._create_target_info. split; [|split].
  - destruct (info_isfile v); simpl; [|intuition].
    destruct (info_read v); split; try discriminate; intuition discriminate.
  - intros info lg.
    destruct (info_isfile v); simpl; [|discriminate].
    destruct (info_read v) as [content|]; [|discriminate].
    intros [= <- _]. cbn [path model board_id family].
    split; [reflexivity|].
    split; [intros f; apply unicode_infer_family_known|].
    intros content' [= <-] Ha. rewrite (Hsl content Ha).
    split; intros x Hx;
      (split; [eapply find_uf2_property_no_linebreak; eassumption
              |eapply find_uf2_property_ascii; eassumption]).
  - intros lines -> -> Hl. simpl.
    assert (Ha : ascii_text (unlines lines))
      by (apply ascii_text_unlines; intros l Hin; now apply Hl).
    rewrite (Hsl _ Ha), (unicode_infer_family_ascii Hlo Ha).
    rewrite splitlines_unlines by (intros l Hin; now apply Hl).
    reflexivity.
Qed.

Lemma create_target_info_fields_witness :
  let text := unlines ["UF2 Bootloader v3.0"; "Model: Raspberry Pi RP2";
                       "Board-ID: RPI-RP2"] in
  option_map (fun r => (path (fst r), family (fst r),
                        model (fst r), board_id (fst r)))
    (Unicode._create_target_info PyStr.lower PyStr.splitlines
       {| sys_platform := "linux"; list_volumes := [] |}
       {| vol := "/media/RPI-RP2"; info_isfile := true;
          info_read := Some text; win_volume_name := None |})
  = Some ("/media/RPI-RP2", Some "rp2", Some "Raspberry Pi RP2",
          Some "RPI-RP2").
Proof.
  intros text.
  refine (proj2 (proj2 (@create_target_info_fields PyStr.lower
                          PyStr.splitlines
                          {| sys_platform := "linux"; list_volumes := [] |}
                          {| vol := "/media/RPI-RP2"; info_isfile := true;
                             info_read := Some text;
                             win_volume_name := None |}
                          (fun _ _ => eq_refl) (fun _ _ => eq_refl)))
            ["UF2 Bootloader v3.0"; "Model: Raspberry Pi RP2";
             "Board-ID: RPI-RP2"] eq_refl eq_refl _).
  intros l [<-|[<-|[<-|[]]]];
    (split; [apply ascii_textb_spec; reflexivity|]);
    intros c Hc; vm_compute in Hc;
    repeat (destruct Hc as [<-|Hc]; [reflexivity|]); destruct Hc.
Defined.

(* ------------------------------------------------------------------ *)
(** ** The pickers in the states the dialog can reach *)

Lemma new_version_combo_eq v c : new_version_combo v c = version_combo_of v.
Proof.
  unfold new_version_combo, version_combo_of. cbv zeta.
  destruct (versions_mapping v) as [|[k u] rest]; [reflexivity|].
  unfold select_value. cbn. now rewrite String.eqb_refl.
Qed.

Lemma mapping_new_variant_combo catalog t c :
  mapping (new_variant_combo catalog t c) = filtered_mapping catalog t.
Proof.
  unfold new_variant_combo. cbv zeta.
  destruct (matches _ t) as [|x [|y l]];
    rewrite ?mapping_select_value; try reflexivity;
    destruct (get_selected_value c); try reflexivity;
    destruct (PyDict.has_value _ _ _);
    rewrite ?mapping_select_value; reflexivity.
Qed.

Lemma shows_offered_version_combo_of v : shows_offered (version_combo_of v).
Proof.
  unfold shows_offered, version_combo_of.
  destruct (versions_mapping v) as [|[k u] rest]; [now left|].
  right. now left.
Qed.

Lemma selected_in_keys (V : Type) (c : MappingCombobox.t V) v :
  get_selected_value c = Some v -> In (desc c) (PyDict.keys (mapping c)).
Proof.
  intros H. apply PyDictFacts.get_Some_In in H.
  eapply PyDictFacts.In_keys; exact H.
Qed.


Lemma offered_is_selected (V : Type) (c : MappingCombobox.t V) :
  In (desc c) (PyDict.keys (mapping c)) -> get_selected_value c <> None.
Proof.
  intros H E. apply PyDictFacts.get_None_iff in E. now apply E.
Qed.

Lemma consistent_targets_block env s :
  consistent s -> consistent (targets_block env s).
Proof.
  intros [H1 H2 H3 H4 H5 H6]. rewrite targets_block_eq.
  destruct (negb _); constructor; fields; try assumption.
  - intros H. now destruct (H2 H).
  - discriminate.
Qed.

Lemma consistent_variants_block s b :
  consistent s -> variants_block s = Some b -> consistent b.
Proof.
  intros Hs. pose proof Hs as [H1 H2 H3 H4 H5 H6]. rewrite variants_block_eq.
  destruct (get_selected_value (_target_combo s)) as [t|] eqn:Et.
  - destruct (PyStr.option_eqb target_eqb (Some t) (_last_handled_target s))
      eqn:E1;
      [|destruct (Nat.eqb (length (_downloaded_variants s)) 0) eqn:E2];
      cbn [negb andb]; intros [= <-]; try exact Hs.
    constructor; fields.
    + exact H1.
    + intros H. rewrite H in E2. discriminate E2.
    + intros t' [= <-]. split; [now rewrite Et|apply mapping_new_variant_combo].
    + right. exists t. apply mapping_new_variant_combo.
    + discriminate.
    + discriminate.
  - intros [= <-]. constructor; fields.
    + exact H1.
    + intros H. split; [now destruct (H2 H)|reflexivity].
    + intros t Ht. destruct (H3 t Ht) as [H _]. now elim H.
    + now left.
    + intros v _. now left.
    + intros v _ H. cbn in H. destruct H.
Qed.

Lemma consistent_versions_block s :
  consistent s -> consistent (versions_block s).
Proof.
  intros Hs. pose proof Hs as [H1 H2 H3 H4 H5 H6]. rewrite versions_block_eq.
  destruct (get_selected_value (_variant_combo s)) as [v|] eqn:Ev.
  - destruct (PyStr.option_eqb Variant.eqb (Some v)
                               (_last_handled_variant s)) eqn:E1;
      cbn [negb]; [exact Hs|]; constructor; fields; try assumption.
    + intros v' _. right. eapply selected_in_keys; exact Ev.
    + intros v' [= <-] _. rewrite new_version_combo_eq.
      split; [reflexivity|apply shows_offered_version_combo_of].
  - constructor; fields; try assumption.
    intros v Hv Hin. exfalso. destruct (H5 v Hv) as [E|Hk].
    + rewrite E in Hin. destruct Hin.
    + now apply (offered_is_selected _ Hk).
Qed.

Lemma consistent_update_target_info s :
  consistent s -> consistent (_update_target_info s).
Proof.
  intros H. rewrite update_target_info_eq. destruct H. now constructor; fields.
Qed.

Lemma consistent_update_variant_info s :
  consistent s -> consistent (_update_variant_info s).
Proof.
  intros H. rewrite update_variant_info_eq. destruct H.
  now constructor; fields.
Qed.

Lemma consistent_update_ui env s s' :
  consistent s -> update_ui env s = Some s' -> consistent s'.
Proof.
  intros Hs. rewrite update_ui_blocks, (consistent_idle Hs), String.eqb_refl.
  destruct (variants_block (targets_block env s)) as [b|] eqn:Eb;
    [|discriminate].
  intros [= <-].
  apply consistent_update_variant_info, consistent_versions_block,
    consistent_update_target_info.
  eapply consistent_variants_block;
    [apply consistent_targets_block; exact Hs|exact Eb].
Qed.

Lemma consistent_user_choice s s' :
  consistent s -> user_choice s s' -> consistent s'.
Proof.
  intros Hs Hu. destruct Hu as [k s Hk|k s Hk|k s Hk];
    destruct Hs as [H1 H2 H3 H4 H5 H6];
    constructor; fields; cbn [pick mapping desc]; try assumption.
  - intros t Ht. destruct (H3 t Ht) as [_ Hm]. split; [|exact Hm].
    now apply offered_is_selected.
  - intros v _. now right.
  - intros v Hv Hin. destruct (H6 v Hv Hin) as [Hm _].
    split; [exact Hm|now right].
Qed.

Lemma downloaded_user_choice s s' :
  user_choice s s' -> _downloaded_variants s' = _downloaded_variants s.
Proof. now intros [k s0 Hk|k s0 Hk|k s0 Hk]. Qed.

(** The catalog arrives in a dialog that has none. *)
Lemma consistent_fetch r s :
  consistent s -> _downloaded_variants s = [] ->
  consistent (_download_variants r s).
Proof.
  intros [H1 H2 H3 H4 H5 H6] He. destruct (H2 He) as [Ht Hm].
  constructor; rewrite ?state_after_fetch.
  - exact H1.
  - intros _. now destruct r.
  - intros t. destruct r; cbn; fields; rewrite Ht; discriminate.
  - left. now destruct r.
  - destruct r; cbn; fields; exact H5.
  - destruct r; cbn; fields; exact H6.
Qed.

Lemma before_fetch_empty s :
  before_fetch s -> consistent s /\ _downloaded_variants s = [].
Proof.
  induction 1 as [|env s s' Hs [IH1 IH2] Hu|s s' Hs [IH1 IH2] Hu].
  - split; [|reflexivity]. constructor; cbn; try tauto; try discriminate.
  - split; [eapply consistent_update_ui; eassumption|].
    destruct (update_ui_settles env s (consistent_idle IH1) Hu)
      as (_ & _ & ->). exact IH2.
  - split; [eapply consistent_user_choice; eassumption|].
    now rewrite (downloaded_user_choice Hu).
Qed.

Lemma downloaded_variants_block a b :
  variants_block a = Some b -> _downloaded_variants b = _downloaded_variants a.
Proof.
  intros H. destruct (variants_block_settles a) as (b' & Hb & _ & _ & E & _).
  rewrite H in Hb. injection Hb as <-. exact E.
Qed.

(** The states of a refresh during which the download ends. *)
Lemma update_ui_during_eq env r m s s' :
  before_fetch s ->
  update_ui_during env r m s = Some s' ->
  exists c,
    consistent c
    /\ match m with
       | after_scan =>
           exists b, variants_block
                       (_download_variants r (targets_block env s)) = Some b
                     /\ c = _update_target_info b
                     /\ s' = _update_variant_info (versions_block c)
       | after_variants =>
           exists b, variants_block (targets_block env s) = Some b
                     /\ c = _update_target_info b
                     /\ _downloaded_variants c = []
                     /\ s' = _update_variant_info
                               (_download_variants r (versions_block c))
       end.
Proof.
  intros Hb. destruct (before_fetch_empty Hb) as [Hs He].
  unfold update_ui_during. rewrite (consistent_idle Hs), String.eqb_refl.
  pose proof (consistent_targets_block env Hs) as Ha.
  destruct (targets_block_settles env s) as (_ & _ & Ea). rewrite He in Ea.
  destruct m.
  - destruct (variants_block _) as [b|] eqn:Eb; [|discriminate].
    intros [= <-]. exists (_update_target_info b). split; [|now exists b].
    apply consistent_update_target_info.
    eapply consistent_variants_block; [|exact Eb].
    now apply consistent_fetch.
  - destruct (variants_block _) as [b|] eqn:Eb; [|discriminate].
    intros [= <-]. exists (_update_target_info b).
    split; [|exists b; repeat split].
    + apply consistent_update_target_info.
      eapply consistent_variants_block; [exact Ha|exact Eb].
    + rewrite update_target_info_eq. fields.
      now rewrite (downloaded_variants_block _ Eb).
Qed.

Lemma consistent_update_ui_during env r m s s' :
  before_fetch s -> update_ui_during env r m s = Some s' -> consistent s'.
Proof.
  intros Hb Hu.
  destruct (update_ui_during_eq _ _ _ Hb Hu) as (c & Hc & H).
  destruct m.
  - destruct H as (b & _ & _ & ->).
    now apply consistent_update_variant_info, consistent_versions_block.
  - destruct H as (b & _ & _ & He & ->).
    apply consistent_update_variant_info, consistent_fetch.
    + now apply consistent_versions_block.
    + destruct (versions_block_settles c) as (_ & _ & _ & E & _).
      now rewrite E.
Qed.

(** The consistency of the pickers holds in every state the dialog can
    reach. *)
Lemma reachable_consistent s : reachable s -> consistent s.
Proof.
  induction 1 as [s Hs|r s Hs|env r m s s' Hs Hu|env s s' Hs IH Hu
                  |s s' Hs IH Hu].
  - now apply before_fetch_empty.
  - apply before_fetch_empty in Hs as [Hs He]. now apply consistent_fetch.
  - eapply consistent_update_ui_during; eassumption.
  - eapply consistent_update_ui; eassumption.
  - eapply consistent_user_choice; eassumption.
Qed.

(** A settled variant list of a consistent dialog is the current one. *)
Lemma variant_list_current_settled s :
  consistent s ->
  match get_selected_value (_target_combo s) with
  | None => _variant_combo s = create Variant.t
  | Some t => _last_handled_target s = Some t \/ _downloaded_variants s = []
  end ->
  variant_list_current s.
Proof.
  intros Hc H. unfold variant_list_current.
  destruct (get_selected_value (_target_combo s)) as [t|]; [|exact H].
  destruct (_downloaded_variants s) as [|v0 catalog] eqn:E.
  - now destruct (consistent_empty Hc E).
  - destruct H as [H|H]; [|discriminate H].
    destruct (consistent_target Hc H) as [_ Hm]. now rewrite <- E.
Qed.

Lemma variant_list_current_ext s s' :
  _target_combo s' = _target_combo s ->
  _variant_combo s' = _variant_combo s ->
  _downloaded_variants s' = _downloaded_variants s ->
  variant_list_current s -> variant_list_current s'.
Proof. unfold variant_list_current. now intros -> -> ->. Qed.

Lemma variants_block_current a b :
  consistent a -> variants_block a = Some b -> variant_list_current b.
Proof.
  intros Ha Hb.
  destruct (variants_block_settles a) as (b' & Hb' & _ & _ & _ & H).
  rewrite Hb in Hb'. injection Hb' as <-.
  apply variant_list_current_settled; [|exact H].
  eapply consistent_variants_block; eassumption.
Qed.

(** The steps of a refresh after the variants block leave the target
    picker, the variant picker and the catalog alone. *)
Lemma rest_of_refresh_keeps b :
  let s1 := _update_variant_info (versions_block (_update_target_info b)) in
  _target_combo s1 = _target_combo b
  /\ _variant_combo s1 = _variant_combo b
  /\ _downloaded_variants s1 = _downloaded_variants b.
Proof.
  intros s1. subst s1. rewrite update_variant_info_eq. fields.
  destruct (versions_block_settles (_update_target_info b))
    as (E1 & E2 & _ & E3 & _).
  rewrite E1, E2, E3, update_target_info_eq. fields. now repeat split.
Qed.






(** X6. After every refresh of a dialog in a state it can reach, with
    the user choosing in the pickers and the download ending at any
    time, the variant list is the one of the selected target: empty with
    nothing selected when no target is selected, empty while the catalog
    is empty, and otherwise the filtered mapping of the catalog for that
    target; each description is offered once, and each variant offered is
    a variant of the catalog under its own description.  The same list is
    shown by the refresh during which the download ends before the
    catalog is looked at.  The refresh during which the download ends
    later offers no variant, whatever target is selected and whatever
    arrived; the refresh after it shows the list. *)
Theorem variant_list_is_current
    (env : Env) (r : FetchResult) (s s1 : Flasher) :
  (reachable s ->
   update_ui env s = Some s1 ->
   variant_list_current s1
   /\ NoDup (PyDict.keys (mapping (_variant_combo s1)))
   /\ (forall k v,
          In (k, v) (mapping (_variant_combo s1)) ->
          k = _create_variant_description v
          /\ In v (_downloaded_variants s1)))
  /\ (before_fetch s ->
      update_ui_during env r after_scan s = Some s1 ->
      variant_list_current s1)
  /\ (before_fetch s ->
      update_ui_during env r after_variants s = Some s1 ->
      mapping (_variant_combo s1) = []
      /\ _downloaded_variants s1
         = _downloaded_variants (_download_variants r s)
      /\ forall env' s2, update_ui env' s1 = Some s2 ->
                         variant_list_current s2).
Proof.
  split; [|split].
  - intros Hr Hu.
    pose proof (reachable_consistent (reachable_refresh env Hr Hu)) as Hc.
    destruct (update_ui_settles env s
                (consistent_idle (reachable_consistent Hr)) Hu)
      as (Hs & _ & _).
    split; [|split].
    + apply variant_list_current_settled;
        [exact Hc|exact (settled_variants Hs)].
    + destruct (consistent_list Hc) as [->|[t ->]];
        [constructor|apply NoDup_keys_filtered_mapping].
    + intros k v. destruct (consistent_list Hc) as [->|[t ->]]; [intros []|].
      intros Hin. apply filtered_sub_whole in Hin.
      now apply whole_mapping_entry.
  - intros Hb Hu.
    destruct (update_ui_during_eq _ _ _ Hb Hu) as (c & _ & b & Eb & -> & ->).
    destruct (rest_of_refresh_keeps b) as (E1 & E2 & E3).
    apply (variant_list_current_ext _ _ E1 E2 E3).
    eapply variants_block_current; [|exact Eb].
    destruct (before_fetch_empty Hb) as [Hs He].
    apply consistent_fetch; [now apply consistent_targets_block|].
    destruct (targets_block_settles env s) as (_ & _ & Ea). congruence.
  - intros Hb Hu.
    pose proof (reachable_during _ _ _ Hb Hu) as Hr.
    destruct (update_ui_during_eq _ _ _ Hb Hu)
      as (c & Hc & b & Eb & -> & He & ->).
    destruct (versions_block_settles (_update_target_info b))
      as (_ & E2 & _ & E3 & _).
    split; [|split].
    + rewrite update_variant_info_eq. fields.
      replace (_variant_combo (_download_variants r
                 (versions_block (_update_target_info b))))
        with (_variant_combo (versions_block (_update_target_info b)))
        by now destruct r.
      rewrite E2. now destruct (consistent_empty Hc He).
    + rewrite update_variant_info_eq. fields.
      rewrite !downloaded_after_fetch. destruct r; [reflexivity|].
      rewrite E3, He. symmetry. now apply before_fetch_empty.
    + intros env' s2 Hu2.
      pose proof (reachable_consistent (reachable_refresh env' Hr Hu2)) as Hc2.
      destruct (update_ui_settles env' _
                  (consistent_idle (reachable_consistent Hr)) Hu2)
        as (Hs & _ & _).
      apply variant_list_current_settled;
        [exact Hc2|exact (settled_variants Hs)].
Qed.


(** A catalog of two boards has arrived; a Feather is plugged in. *)
Lemma variant_list_is_current_witness :
  let x := {| Variant.vendor := "Adafruit";
              Variant.model := "Feather M0 Express";
              Variant.family := "samd21"; Variant.title := None;
              Variant.info_url := "https://example.org/feather-m0";
              Variant.downloads :=
                [{| version := "1.20.0";
                    url := "https://example.org/feather-m0.uf2" |}] |} in
  let y := {| Variant.vendor := "Raspberry Pi"; Variant.model := "Pico";
              Variant.family := "rp2"; Variant.title := None;
              Variant.info_url := "https://example.org/pico";
              Variant.downloads := [] |} in
  let env :=
    {| sys_platform := "linux";
       list_volumes := [{| vol := "/media/FEATHERBOOT"; info_isfile := true;
                           info_read := Some "Board-ID: SAMD21G18A-Feather";
                           win_volume_name := None |}] |} in
  (exists s1,
     update_ui env (_download_variants (Fetched [x; y]) init) = Some s1
     /\ variant_list_current s1)
  /\ (exists s1,
        update_ui_during env (Fetched [x; y]) after_variants init = Some s1
        /\ mapping (_variant_combo s1) = []).
Proof.
  intros x y env. split.
  - assert (H : exists s1,
               update_ui env (_download_variants (Fetched [x; y]) init)
               = Some s1) by (eexists; vm_compute; reflexivity).
    destruct H as [s1 H]. exists s1. split; [exact H|].
    refine (proj1 (proj1 (variant_list_is_current env FetchFailed _ s1)
                     _ H)).
    apply reachable_fetch, before_fetch_init.
  - assert (H : exists s1,
               update_ui_during env (Fetched [x; y]) after_variants init
               = Some s1) by (eexists; vm_compute; reflexivity).
    destruct H as [s1 H]. exists s1. split; [exact H|].
    refine (proj1 (proj2 (proj2 (variant_list_is_current env (Fetched [x; y])
                                   init s1))
                     before_fetch_init H)).
Defined.




(** X9. While the download is under way no variant and no version is
    offered: after every refresh the variant list and the version list
    are empty, nothing is selected in them, no target counts as handled,
    and the info line shows the downloading message. *)
Theorem nothing_offered_before_fetch (env : Env) (s s1 : Flasher) :
  before_fetch s ->
  update_ui env s = Some s1 ->
  mapping (_variant_combo s1) = []
  /\ get_selected_value (_variant_combo s1) = None
  /\ _version_combo s1 = create string
  /\ _last_handled_target s1 = None
  /\ shows_downloading s1.
Proof.
  intros Hb Hu.
  destruct (before_fetch_empty (before_fetch_refresh env Hb Hu)) as [Hc He].
  destruct (before_fetch_empty Hb) as [Hc0 _].
  destruct (update_ui_settles env s (consistent_idle Hc0) Hu) as (Hs & _ & _).
  destruct (consistent_empty Hc He) as [Ht Hm].
  assert (Hsel : get_selected_value (_variant_combo s1) = None)
    by (unfold get_selected_value; now rewrite Hm).
  repeat split; try assumption.
  - pose proof (settled_versions Hs) as H. now rewrite Hsel in H.
  - now apply (settled_shows_downloading Hs).
  - now apply (settled_shows_downloading Hs).
Qed.

Lemma nothing_offered_before_fetch_witness :
  let env :=
    {| sys_platform := "linux";
       list_volumes := [{| vol := "/media/RPI-RP2"; info_isfile := true;
                           info_read := Some "Board-ID: RPI-RP2";
                           win_volume_name := None |}] |} in
  exists s1, update_ui env init = Some s1 /\ shows_downloading s1.
Proof.
  intros env.
  assert (H : exists s1, update_ui env init = Some s1)
    by (eexists; vm_compute; reflexivity).
  destruct H as [s1 H]. exists s1. split; [exact H|].
  apply (nothing_offered_before_fetch env before_fetch_init H).
Defined.

(** X10. Showing new targets makes them the list of the target picker
    and touches nothing else.  A single target is selected; with none or
    several, none of them having the empty title, no target is
    selected. *)
Theorem show_new_targets_selection
    (targets : PyDict.dict Uf2TargetInfo) (s : Flasher) :
  let s' := show_new_targets targets s in
  mapping (_target_combo s') = targets
  /\ s' = with_target_combo (_target_combo s') s
  /\ (forall k t, targets = [(k, t)] ->
                  get_selected_value (_target_combo s') = Some t)
  /\ (length targets <> 1 -> ~ In "" (PyDict.keys targets) ->
      get_selected_value (_target_combo s') = None).
Proof.
  intros s'. subst s'. unfold show_new_targets.
  split; [|split; [|split]].
  - destruct (PyDict.values targets) as [|x [|y l]]; fields;
      try reflexivity. apply mapping_select_value.
  - now destruct (PyDict.values targets) as [|x [|y l]].
  - intros k t ->. cbn [PyDict.values map snd]. fields.
    unfold select_value, get_selected_value. cbn.
    rewrite target_eqb_refl. cbn. now rewrite String.eqb_refl.
  - intros Hlen Hkeys.
    assert (Hnone : get_selected_value
                      (select_none (set_mapping targets (_target_combo s)))
                    = None)
      by (apply PyDictFacts.get_None_iff; exact Hkeys).
    destruct targets as [|[k t] [|kt2 rest]]; fields; try exact Hnone.
    now elim Hlen.
Qed.

Lemma show_new_targets_selection_witness :
  let t1 := {| title := "/media/A"; path := "/media/A"; family := None;
               model := None; board_id := None |} in
  let t2 := {| title := "/media/B"; path := "/media/B"; family := None;
               model := None; board_id := None |} in
  get_selected_value
    (_target_combo (show_new_targets [("/media/A", t1)] init)) = Some t1
  /\ get_selected_value
       (_target_combo
          (show_new_targets [("/media/A", t1); ("/media/B", t2)] init))
     = None.
Proof.
  intros t1 t2. split.
  - apply (proj1 (proj2 (proj2
             (show_new_targets_selection [("/media/A", t1)] init)))
             "/media/A" t1 eq_refl).
  - apply (proj2 (proj2 (proj2
             (show_new_targets_selection
                [("/media/A", t1); ("/media/B", t2)] init)))).
    + discriminate.
    + intros [H|[H|[]]]; discriminate H.
Defined.

(** X11. The target info line.  Its label is empty exactly when no target
    is selected, and its content is never empty.  For a selected target
    that declares a model, the content is the model under the label
    ["model"], except that the model [Raspberry Pi RP2] is shown as the
    family [RP2].  Nothing but the two labels changes. *)
Theorem update_target_info_display (s : Flasher) :
  let s' := _update_target_info s in
  (_target_info_label s' = "" <->
   get_selected_value (_target_combo s) = None)
  /\ _target_info_content_label s' <> ""
  /\ (forall t m,
         get_selected_value (_target_combo s) = Some t ->
         model t = Some m -> m <> "" ->
         (_target_info_label s', _target_info_content_label s')
         = if String.eqb m "Raspberry Pi RP2" then ("family", "RP2")
           else ("model", m))
  /\ s' = with_target_info (_target_info_label s')
                           (_target_info_content_label s') s.
Proof.
  intros s'. subst s'. rewrite update_target_info_eq. fields.
  unfold target_info_texts.
  destruct (get_selected_value (_target_combo s)) as [t|].
  - split; [|split; [|split]].
    + split; [|discriminate].
      destruct (truthy (model t));
        [destruct (PyStr.option_eqb _ _ _)|
         destruct (truthy (board_id t)); [|destruct (truthy (family t))]];
        discriminate.
    + destruct (model t) as [[|c m]|]; cbn [truthy];
        [| destruct (PyStr.option_eqb _ _ _); discriminate |];
        (destruct (board_id t) as [[|c' b]|]; cbn [truthy];
         [| discriminate |];
         (destruct (family t) as [[|c'' f]|]; cbn [truthy]; discriminate)).
    + intros t' m [= <-] -> Hm. destruct m as [|c m]; [now elim Hm|].
      cbn [truthy PyStr.option_eqb].
      now destruct (String.eqb (String c m) "Raspberry Pi RP2").
    + reflexivity.
  - split; [|split; [|split]].
    + now destruct (mapping (_target_combo s)).
    + destruct (mapping (_target_combo s)); discriminate.
    + discriminate.
    + reflexivity.
Qed.

Lemma update_target_info_display_witness :
  let t := {| title := "/media/RPI-RP2"; path := "/media/RPI-RP2";
              family := Some "rp2"; model := Some "Raspberry Pi RP2";
              board_id := Some "RPI-RP2" |} in
  let s' := _update_target_info (show_new_targets [("/media/RPI-RP2", t)] init) in
  (_target_info_label s', _target_info_content_label s') = ("family", "RP2").
Proof.
  intros t s'.
  apply (proj1 (proj2 (proj2 (update_target_info_display
                                (show_new_targets [("/media/RPI-RP2", t)]
                                                  init)))) t
           "Raspberry Pi RP2" eq_refl eq_refl).
  discriminate.
Defined.

(** X12. [_handle_new_target] raises its assertion error exactly when the
    catalog is empty, and a refresh never lets that happen: [update_ui]
    returns from every state of the dialog, and returns it unchanged when
    the dialog is not idle. *)
Theorem refresh_never_fails_assertion (s : Flasher) :
  (forall target,
      _handle_new_target target s = None <-> _downloaded_variants s = [])
  /\ (forall env, exists s1, update_ui env s = Some s1)
  /\ (forall env, _state s <> "idle" -> update_ui env s = Some s).
Proof.
  split; [|split].
  - intros target. split.
    + intros H. destruct (_downloaded_variants s) eqn:E; [reflexivity|].
      rewrite handle_new_target_eq in H by (rewrite E; discriminate).
      discriminate H.
    + intros H. unfold _handle_new_target. now rewrite H.
  - intros env. apply update_ui_total.
  - intros env H. rewrite update_ui_blocks.
    destruct (String.eqb_spec (_state s) "idle"); [contradiction|reflexivity].
Qed.

Lemma refresh_never_fails_assertion_witness :
  _handle_new_target
    {| title := "/media/RPI-RP2"; path := "/media/RPI-RP2";
       family := Some "rp2"; model := None; board_id := None |} init = None.
Proof.
  apply (proj1 (refresh_never_fails_assertion init)). reflexivity.
Defined.

(* ------------------------------------------------------------------ *)
(** ** The order of the detected targets *)

Lemma NoDup_of_keys (V : Type) (d : PyDict.dict V) :
  NoDup (PyDict.keys d) -> NoDup d.
Proof. apply NoDup_map_inv. Qed.

(** Two dictionaries are equal when they hold the same items, in whatever
    order. *)
Lemma dict_eqb_permutation (V : Type) (veqb : V -> V -> bool)
    (d1 d2 : PyDict.dict V) :
  (forall a b, veqb a b = true <-> a = b) ->
  NoDup (PyDict.keys d1) -> NoDup (PyDict.keys d2) ->
  (PyDict.eqb veqb d1 d2 = true <-> Permutation d1 d2).
Proof.
  intros Hv H1 H2. unfold PyDict.eqb.
  rewrite andb_true_iff, Nat.eqb_eq, forallb_forall. split.
  - intros [Hlen Hall]. apply NoDup_Permutation_bis.
    + now apply NoDup_of_keys.
    + lia.
    + intros [k v] Hin. specialize (Hall _ Hin). cbn in Hall.
      destruct (PyDict.get k d2) as [v'|] eqn:E; [|discriminate].
      apply Hv in Hall. subst v'. now apply PyDictFacts.get_Some_In.
  - intros Hp. split; [now apply Permutation_length|].
    intros [k v] Hin. cbn.
    rewrite PyDictFacts.In_get with (v := v);
      [now apply Hv|exact H2|].
    eapply Permutation_in; eassumption.
Qed.

Lemma target_combo_after_refresh env s s1 :
  _state s = "idle" ->
  update_ui env s = Some s1 ->
  _target_combo s1 = _target_combo (targets_block env s).
Proof.
  intros Hidle. rewrite update_ui_blocks, Hidle, String.eqb_refl.
  destruct (variants_block_settles (targets_block env s))
    as (b & -> & Hb & _).
  intros [= <-]. rewrite update_variant_info_eq. fields.
  destruct (versions_block_settles (_update_target_info b)) as (Hd & _).
  rewrite Hd, update_target_info_eq. fields. exact Hb.
Qed.

(** X13. A refresh compares the detected targets with the shown ones as
    dictionaries: when the scan finds the shown targets again, in
    whatever order, the target picker keeps its list, its order and its
    selection; otherwise its list becomes the detected targets. *)
Theorem refresh_ignores_scan_order (env : Env) (s s1 : Flasher) :
  _state s = "idle" ->
  NoDup (PyDict.keys (mapping (_target_combo s))) ->
  update_ui env s = Some s1 ->
  (Permutation (detected env) (mapping (_target_combo s)) ->
   _target_combo s1 = _target_combo s)
  /\ (~ Permutation (detected env) (mapping (_target_combo s)) ->
      mapping (_target_combo s1) = detected env).
Proof.
  intros Hidle Hnd Hu.
  rewrite (target_combo_after_refresh env s Hidle Hu), targets_block_eq.
  pose proof (dict_eqb_permutation target_eqb (detected env)
                (mapping (_target_combo s)) target_eqb_spec
                (NoDup_keys_detected env) Hnd) as Heq.
  destruct (PyDict.eqb target_eqb (detected env) (mapping (_target_combo s)));
    cbn [negb]; fields; split.
  - reflexivity.
  - intros H. elim H. now apply Heq.
  - intros H. apply Heq in H. discriminate H.
  - intros _. apply mapping_new_target_combo.
Qed.

(** Two boards plugged in; the scan lists them in the other order than
    the picker shows them. *)
Lemma refresh_ignores_scan_order_witness :
  let a := {| vol := "/media/A"; info_isfile := true;
              info_read := Some "Board-ID: RPI-RP2";
              win_volume_name := None |} in
  let b := {| vol := "/media/B"; info_isfile := true;
              info_read := Some "Board-ID: nRF52840";
              win_volume_name := None |} in
  let env := {| sys_platform := "linux"; list_volumes := [a; b] |} in
  let env' := {| sys_platform := "linux"; list_volumes := [b; a] |} in
  exists s0 s1,
    update_ui env' init = Some s0
    /\ update_ui env s0 = Some s1
    /\ PyDict.keys (mapping (_target_combo s0)) = ["/media/B"; "/media/A"]
    /\ _target_combo s1 = _target_combo s0.
Proof.
  intros a b env env'.
  assert (H0 : exists s0,
             update_ui env' init = Some s0
             /\ _state s0 = "idle"
             /\ mapping (_target_combo s0) = detected env')
    by (eexists; vm_compute; repeat split).
  destruct H0 as (s0 & H0 & Hidle & Hm).
  destruct (update_ui_total env s0) as [s1 H1].
  exists s0, s1. split; [exact H0|]. split; [exact H1|].
  split; [now rewrite Hm|].
  apply (proj1 (refresh_ignores_scan_order env s0 Hidle
                  ltac:(rewrite Hm; apply NoDup_keys_detected) H1)).
  rewrite Hm. vm_compute. apply perm_swap.
Defined.

(** X14. What [find_uf2_property] returns can be read in the lines: a
    value is returned only when some line is the name, a colon, a space
    and that value, no line before it starting so. *)
Theorem find_uf2_property_some (lines : list string) (P v : string) :
  find_uf2_property lines P = Some v ->
  exists before after,
    lines = before ++ (P ++ ": " ++ v)%string :: after
    /\ forall l, In l before -> ~ is_prefix (P ++ ": ") l.
Proof.
  induction lines as [|l lines IH]; [discriminate|].
  cbn [find_uf2_property].
  destruct (PyStr.startswith l (P ++ ": ")) eqn:E.
  - intros [= <-]. exists [], lines. split; [|intros ? []].
    apply PyStrFacts.startswith_spec in E as [r ->].
    now rewrite PyStrFacts.drop_app, append_assoc.
  - intros H. destruct (IH H) as (before & after & -> & Hb).
    exists (l :: before), after. split; [reflexivity|].
    intros l' [<-|Hin]; [now apply startswith_false_iff|now apply Hb].
Qed.

Lemma find_uf2_property_some_witness :
  exists before after,
    ["UF2 Bootloader v3.0"; "Model: Raspberry Pi RP2"; "Board-ID: RPI-RP2"]
    = before ++ ("Board-ID" ++ ": " ++ "RPI-RP2")%string :: after
    /\ forall l, In l before -> ~ is_prefix ("Board-ID" ++ ": ") l.
Proof.
  apply (find_uf2_property_some
           ["UF2 Bootloader v3.0"; "Model: Raspberry Pi RP2";
            "Board-ID: RPI-RP2"] "Board-ID" (v := "RPI-RP2")).
  reflexivity.
Defined.
